(** * Wallet-pass generator (app.js): colour parsing, manifest building, scratch-file cleanup

    A shallow embedding of the live code of [app.js] (lines 1-210; the rest of
    the file is commented-out history) and the properties of its
    specification.

    Conventions of the embedding:
    - a JavaScript string is the list of its UTF-16 code units ([jsstring]);
    - a request field is absent ([None]) or a string ([Some s]), as the
      interface of the specification types it;
    - everything the handler obtains from outside the file (clock, time zone,
      the image library, the template and icon files, the signer, the file
      system calls that may fail) is a field of [Env];
    - the scratch directory and the archive directory are one finite map
      from paths to contents. *)

From stdpp Require Import base option numbers list strings gmap.
From Stdlib Require Import ZArith Lia DecimalString DecimalZ.

Local Open Scope Z_scope.

(** ** JavaScript strings *)

Definition jsstring : Type := list N.

(** The code units of an ASCII literal. *)
Definition js (s : string) : jsstring :=
  Ascii.N_of_ascii <$> String.list_ascii_of_string s.
Arguments js : simpl never.

(** ** The pattern [/rgb\((\d+),\s*(\d+),\s*(\d+)\)/] *)

Module Regex.

(** [\d] : the ten ASCII digits. *)
Definition isDigit (c : N) : bool := ((48 <=? c) && (c <=? 57))%N.

(** [\s] : WhiteSpace and LineTerminator code units. *)
Definition isSpace (c : N) : bool :=
  (((9 <=? c) && (c <=? 13)) || (c =? 32) || (c =? 160) || (c =? 5760)
   || ((8192 <=? c) && (c <=? 8202)) || (c =? 8232) || (c =? 8233)
   || (c =? 8239) || (c =? 8287) || (c =? 12288) || (c =? 65279))%N.

(** The longest prefix of [s] in the class [p], and what follows it: a
    greedy [p*]. *)
Fixpoint span (p : N → bool) (s : jsstring) : jsstring * jsstring :=
  match s with
  | c :: s' =>
      if p c then let '(a, b) := span p s' in (c :: a, b) else ([], s)
  | [] => ([], [])
  end.

(** A literal piece of the pattern: [Some rest] when [s] starts with it. *)
Fixpoint literal (lit s : jsstring) : option jsstring :=
  match lit, s with
  | [], _ => Some s
  | a :: lit', c :: s' => if (a =? c)%N then literal lit' s' else None
  | _ :: _, [] => None
  end.

(** A capturing [(\d+)]: the greedy run of digits, which must not be
    empty. The piece of the pattern that follows is never a digit, so
    giving back digits cannot help: greedy is the only way to match. *)
Definition digits1 (s : jsstring) : option (jsstring * jsstring) :=
  match span isDigit s with
  | ([], _) => None
  | (d, rest) => Some (d, rest)
  end.

(** [\s*] *)
Definition spaces (s : jsstring) : jsstring := (span isSpace s).2.

(** The whole pattern tried at the start of [s]; the three captures. *)
Definition matchHere (s : jsstring) : option (jsstring * jsstring * jsstring) :=
  s ← literal (js "rgb(") s;
  '(m1, s) ← digits1 s;
  s ← literal (js ",") s;
  '(m2, s) ← digits1 (spaces s);
  s ← literal (js ",") s;
  '(m3, s) ← digits1 (spaces s);
  _ ← literal (js ")") s;
  Some (m1, m2, m3).

(** [String.prototype.match] with a non-global pattern: the match at the
    leftmost position where the pattern matches, [None] for [null]. *)
Fixpoint matchRGB (s : jsstring) : option (jsstring * jsstring * jsstring) :=
  match matchHere s with
  | Some m => Some m
  | None => match s with
            | [] => None
            | _ :: s' => matchRGB s'
            end
  end.

(** What the pattern describes, written out: the text of one match with
    captures [m1], [m2], [m3] and white space [w1], [w2] after the commas. *)
Definition matchText (m1 w1 m2 w2 m3 : jsstring) : jsstring :=
  js "rgb(" ++ m1 ++ js "," ++ w1 ++ m2 ++ js "," ++ w2 ++ m3 ++ js ")".

Definition isDigits (m : jsstring) : Prop := m ≠ [] ∧ Forall (λ c, isDigit c = true) m.
Definition isSpaces (w : jsstring) : Prop := Forall (λ c, isSpace c = true) w.

(** [s] has a match of the pattern starting right after [pre]. *)
Definition MatchAt (pre : jsstring) (m1 m2 m3 : jsstring) (s : jsstring) : Prop :=
  ∃ w1 w2 post,
    s = pre ++ matchText m1 w1 m2 w2 m3 ++ post
    ∧ isDigits m1 ∧ isDigits m2 ∧ isDigits m3 ∧ isSpaces w1 ∧ isSpaces w2.

(** [s] contains a match somewhere. *)
Definition Matches (s : jsstring) : Prop := ∃ pre m1 m2 m3, MatchAt pre m1 m2 m3 s.

End Regex.

(** ** Numbers and [parseInt] *)

(** A JavaScript Number that is an integer, an infinity or NaN; the only
    Numbers the code produces. *)
Inductive number : Type :=
| Finite (z : Z)
| Infinity
| NaN.

(** The double nearest to a non-negative integer (ties to even): exact up
    to 2^53, [Infinity] from 2^1024 - 2^970 on. *)
Definition toDouble (n : Z) : number :=
  if n <? 2 ^ 53 then Finite n
  else
    let e := Z.log2 n - 52 in
    let q := n / 2 ^ e in
    let rem := n mod 2 ^ e in
    let half := 2 ^ (e - 1) in
    let q' := if (half <? rem) || ((rem =? half) && Z.odd q) then q + 1 else q in
    let v := q' * 2 ^ e in
    if 2 ^ 1024 <=? v then Infinity else Finite v.

Definition digitValue (c : N) : Z := Z.of_N c - 48.

Definition decimalValue (m : jsstring) : Z :=
  foldl (λ acc c, 10 * acc + digitValue c) 0 m.

(** [parseInt(string)] with no radix, on the strings the program gives it:
    captures of [(\d+)]. The built-in first drops leading white space, a
    sign and a [0x] prefix; a capture starts with a digit and holds no [x],
    so those steps do nothing here and are not modelled. It then reads the
    longest run of decimal digits, and answers NaN when there is none. *)
Definition parseInt (s : jsstring) : number :=
  match (Regex.span Regex.isDigit s).1 with
  | [] => NaN
  | m => toDouble (decimalValue m)
  end.

(** ** [parseRGBColor] *)

Record rgb : Type := RGB { r : number; g : number; b : number }.

(** Default sky blue color *)
Definition DEFAULT_BACKGROUND_COLOR : jsstring := js "rgb(41, 128, 185)".

(** Helper function to parse RGB color. The function calls itself on the
    default when the pattern does not match; [fuel] bounds the depth of
    calls, and [None] is a call that ran out of it. *)
Fixpoint parseRGBColor (fuel : nat) (rgbString : jsstring) : option rgb :=
  match fuel with
  | O => None
  | S fuel' =>
      match Regex.matchRGB rgbString with
      | None => parseRGBColor fuel' DEFAULT_BACKGROUND_COLOR
      | Some (m1, m2, m3) =>
          Some {| r := parseInt m1; g := parseInt m2; b := parseInt m3 |}
      end
  end.

(** The colour the default constant denotes. *)
Definition defaultColor : rgb := RGB (Finite 41) (Finite 128) (Finite 185).

(** [x || DEFAULT_BACKGROUND_COLOR] for an optional string [x]: [undefined]
    and the empty string are the falsy ones. *)
Definition truthy (x : option jsstring) : bool :=
  match x with
  | Some (_ :: _) => true
  | _ => false
  end.

Definition orDefault (x : option jsstring) : jsstring :=
  match x with
  | Some (c :: s) => c :: s
  | _ => DEFAULT_BACKGROUND_COLOR
  end.

(** Depth of calls every caller of this program has to spare. *)
Definition callDepth : nat := 16.

(** The colour the program resolves for a request: the expression
    [parseRGBColor(backgroundColor || DEFAULT_BACKGROUND_COLOR)] of lines 52
    and 68. *)
Definition resolveColor (backgroundColor : option jsstring) : option rgb :=
  parseRGBColor callDepth (orDefault backgroundColor).

(** ** Dates: the part of the built-in [Date] the handler uses

    Time values are milliseconds since the epoch; [None] is NaN, the time
    value of an Invalid Date. The functions are those of the ECMAScript
    definition of [Date], under its names. *)

Module JSDate.

Definition msPerDay : Z := 86400000.

Definition Day (t : Z) : Z := t / msPerDay.
Definition TimeWithinDay (t : Z) : Z := t mod msPerDay.

Definition leapYear (y : Z) : bool :=
  (y mod 4 =? 0) && (negb (y mod 100 =? 0) || (y mod 400 =? 0)).

Definition DaysInYear (y : Z) : Z := if leapYear y then 366 else 365.

Definition DayFromYear (y : Z) : Z :=
  365 * (y - 1970) + (y - 1969) / 4 - (y - 1901) / 100 + (y - 1601) / 400.

(** Upwards from [y], the last year that starts on or before day [d]. *)
Fixpoint yearSearch (fuel : nat) (y d : Z) : Z :=
  match fuel with
  | O => y
  | S fuel' => if DayFromYear (y + 1) <=? d then yearSearch fuel' (y + 1) d else y
  end.

(** The largest [y] with [TimeFromYear y <= t]: searched upwards from a year
    that starts before [t]. *)
Definition YearFromTime (t : Z) : Z :=
  let d := Day t in
  let y0 := 1970 + (if d <? 0 then d / 365 else d / 366) - 1 in
  yearSearch (Z.to_nat (Z.abs d / 100000 + 5)) y0 d.

Definition DayWithinYear (t : Z) : Z := Day t - DayFromYear (YearFromTime t).
Definition InLeapYear (t : Z) : bool := leapYear (YearFromTime t).

(** Days of the year before month [m] (0 = January). *)
Definition daysBeforeMonth (m : Z) (leap : bool) : Z :=
  let l := if leap then 1 else 0 in
  if m <=? 0 then 0
  else if m =? 1 then 31
  else if m =? 2 then 59 + l
  else if m =? 3 then 90 + l
  else if m =? 4 then 120 + l
  else if m =? 5 then 151 + l
  else if m =? 6 then 181 + l
  else if m =? 7 then 212 + l
  else if m =? 8 then 243 + l
  else if m =? 9 then 273 + l
  else if m =? 10 then 304 + l
  else 334 + l.

Definition monthOfDay (d : Z) (leap : bool) : Z :=
  let l := if leap then 1 else 0 in
  if d <? 31 then 0
  else if d <? 59 + l then 1
  else if d <? 90 + l then 2
  else if d <? 120 + l then 3
  else if d <? 151 + l then 4
  else if d <? 181 + l then 5
  else if d <? 212 + l then 6
  else if d <? 243 + l then 7
  else if d <? 273 + l then 8
  else if d <? 304 + l then 9
  else if d <? 334 + l then 10
  else 11.

Definition MonthFromTime (t : Z) : Z := monthOfDay (DayWithinYear t) (InLeapYear t).

Definition DateFromTime (t : Z) : Z :=
  DayWithinYear t - daysBeforeMonth (MonthFromTime t) (InLeapYear t) + 1.

Definition HourFromTime (t : Z) : Z := (t / 3600000) mod 24.
Definition MinFromTime (t : Z) : Z := (t / 60000) mod 60.
Definition SecFromTime (t : Z) : Z := (t / 1000) mod 60.
Definition msFromTime (t : Z) : Z := t mod 1000.

(** The day number of day [date] of month [month] (0 = January) of [year];
    months and dates out of their range carry over. *)
Definition MakeDay (year month date : Z) : Z :=
  let ym := year + month / 12 in
  let mn := month mod 12 in
  DayFromYear ym + daysBeforeMonth mn (leapYear ym) + date - 1.

Definition MakeDate (day time : Z) : Z := day * msPerDay + time.

Definition TimeClip (t : Z) : option Z :=
  if 8640000000000000 <? Z.abs t then None else Some t.

(** Days of month [m] (0 = January) of year [y]. *)
Definition DaysInMonth (y m : Z) : Z :=
  if m =? 11 then 31
  else daysBeforeMonth (m + 1) (leapYear y) - daysBeforeMonth m (leapYear y).

(** The host's time zone: [LocalTZA t true] is the offset of local time from
    UTC at the UTC instant [t], [LocalTZA t false] the offset when [t] is
    read as a local time. *)
Definition timezone : Type := Z → bool → Z.

Definition LocalTime (tz : timezone) (t : Z) : Z := t + tz t true.
Definition UTC (tz : timezone) (t : Z) : Z := t - tz t false.

(** The zone's offset at the instant [t] is also its offset for the local
    time one day later: no change of clocks falls in between. *)
Definition offsetStable (tz : timezone) (t : Z) : Prop :=
  tz (LocalTime tz t + msPerDay) false = tz t true.

(** [Date.prototype.getDate]: the day of the month in local time. *)
Definition getDate (tz : timezone) (tv : option Z) : option Z :=
  t ← tv; Some (DateFromTime (LocalTime tz t)).

(** [Date.prototype.setDate]: the new time value. *)
Definition setDate (tz : timezone) (tv : option Z) (date : option Z) : option Z :=
  t ← tv;
  dt ← date;
  let t := LocalTime tz t in
  let newDate := MakeDate (MakeDay (YearFromTime t) (MonthFromTime t) dt) (TimeWithinDay t) in
  TimeClip (UTC tz newDate).

(** A string in the date-only form [YYYY-MM-DD] of the ECMAScript date-time
    format: its year, month (1-12) and day. *)
Definition parseDateOnly (s : jsstring) : option (Z * Z * Z) :=
  match s with
  | [y1; y2; y3; y4; h1; m1; m2; h2; d1; d2] =>
      if forallb Regex.isDigit [y1; y2; y3; y4; m1; m2; d1; d2] && (h1 =? 45)%N && (h2 =? 45)%N
      then Some (decimalValue [y1; y2; y3; y4], decimalValue [m1; m2], decimalValue [d1; d2])
      else None
  | _ => None
  end.

Definition validDate (y m d : Z) : bool :=
  (1 <=? m) && (m <=? 12) && (1 <=? d) && (d <=? DaysInMonth y (m - 1)).

(** [Date.parse]. A date-only form that names a day of the calendar is UTC
    midnight of that day. For every other string the language leaves the
    answer to the implementation (further forms of the format, legacy
    formats, what an out-of-range day means): [impl] stands for it. *)
Definition parse (impl : jsstring → option Z) (s : jsstring) : option Z :=
  match parseDateOnly s with
  | Some (y, m, d) =>
      if validDate y m d then Some (MakeDate (MakeDay y (m - 1) d) 0) else impl s
  | None => impl s
  end.

(** [new Date(string)] *)
Definition newDate (impl : jsstring → option Z) (s : jsstring) : option Z :=
  t ← parse impl s; TimeClip t.

(** [n] in [w] decimal digits. *)
Fixpoint pad (w : nat) (n : Z) : jsstring :=
  match w with
  | O => []
  | S w' => pad w' (n / 10) ++ [Z.to_N (48 + n mod 10)]
  end.

(** [Date.prototype.toISOString] of a valid time value. *)
Definition toISOString (t : Z) : jsstring :=
  let y := YearFromTime t in
  let year :=
    if (0 <=? y) && (y <=? 9999) then pad 4 y
    else (if y <? 0 then js "-" else js "+") ++ pad 6 (Z.abs y) in
  year ++ js "-" ++ pad 2 (MonthFromTime t + 1) ++ js "-" ++ pad 2 (DateFromTime t)
  ++ js "T" ++ pad 2 (HourFromTime t) ++ js ":" ++ pad 2 (MinFromTime t)
  ++ js ":" ++ pad 2 (SecFromTime t) ++ js "." ++ pad 3 (msFromTime t) ++ js "Z".

(** The calendar day after day [d] of month [m] (1-12) of year [y]. *)
Definition nextDay (y m d : Z) : Z * Z * Z :=
  if d <? DaysInMonth y (m - 1) then (y, m, d + 1)
  else if m <? 12 then (y, m + 1, 1)
  else (y + 1, 1, 1).

(** [Date.prototype.toJSON], what [JSON.stringify] writes for a Date:
    [None] is [null], written for an Invalid Date. *)
Definition toJSON (tv : option Z) : option jsstring := toISOString <$> tv.

End JSDate.

(** ** Values, the pass document and the request *)

(** File contents and buffers: bytes. *)
Definition blob : Type := list N.

(** The values a field of the pass document holds: what the template file
    can hold, and the Date object of line 151. *)
Inductive jsvalue : Type :=
| VUndefined
| VNull
| VBool (b : bool)
| VNumber (z : Z)
| VString (s : jsstring)
| VDate (tv : option Z).

Record Barcode : Type := {
  message : jsstring;
  format : jsstring;
  messageEncoding : jsstring;
  altText : jsstring
}.

(** One display field: its [value], and its other keys (key, label, ...),
    which the handler never touches. *)
Record Field : Type := {
  value : jsvalue;
  otherKeys : list (jsstring * jsvalue)
}.

Record Coupon : Type := {
  headerFields : list Field;
  primaryFields : list Field;
  secondaryFields : list Field
}.

(** [passJson]: the document of [models/pass.json] as the handler uses it.
    The four members the handler overwrites on every request have the type
    of what it writes; [otherProps] are the members it leaves alone. A
    template without a [coupon], or without one of its three lists, behaves
    as one where the list is empty: the assignment to [[0].value] throws. *)
Record PassJson : Type := {
  serialNumber : jsstring;
  barcode : Barcode;
  barcodes : list Barcode;
  backgroundColor : jsstring;
  coupon : Coupon;
  otherProps : list (jsstring * jsvalue)
}.

(** [req.body]: each field absent or a string. *)
Record Request : Type := {
  expiryDate : option jsstring;
  serviceType : option jsstring;
  discount : option jsstring;
  reqBackgroundColor : option jsstring;
  stripImage : option jsstring
}.

(** ** Exceptions and the handler's state *)

Inductive result (A : Type) : Type :=
| Ok (a : A)
| Throw (message : jsstring).
Arguments Ok {A} a.
Arguments Throw {A} message.

(** The files on disk and the handler's [filesToCleanup] array. Both
    outlive a throw, so they are threaded through the computation. *)
Record State : Type := {
  files : gmap jsstring blob;
  filesToCleanup : list jsstring
}.

Definition M (A : Type) : Type := State → result A * State.

Definition ret {A} (a : A) : M A := λ st, (Ok a, st).
Definition throw {A} (message : jsstring) : M A := λ st, (Throw message, st).
Definition bind {A B} (m : M A) (k : A → M B) : M B :=
  λ st, match m st with
        | (Ok a, st') => k a st'
        | (Throw e, st') => (Throw e, st')
        end.
Definition lift {A} (x : result A) : M A := λ st, (x, st).

(** [try { m } catch (error) { h error.message }] *)
Definition tryCatch {A} (m : M A) (h : jsstring → M A) : M A :=
  λ st, match m st with
        | (Ok a, st') => (Ok a, st')
        | (Throw e, st') => h e st'
        end.

Declare Scope js_scope.
Delimit Scope js_scope with js.
Notation "x <~ m ;; k" := (bind m (λ x, k))
  (at level 100, m at next level, right associativity) : js_scope.
Notation "m ;;; k" := (bind m (λ _, k))
  (at level 100, right associativity) : js_scope.

(** ** What the handler obtains from outside *)

Inductive tier : Type := Base | Tier2x | Tier3x.

Record Env : Type := {
  (** [Date.now()] *)
  now : Z;
  (** [req.protocol] and [req.get('host')], as the template literal of line
      118 writes them *)
  protocol : jsstring;
  host : jsstring;
  (** the host's time zone, and [Date.parse] where the language leaves it
      to the implementation *)
  tz : JSDate.timezone;
  dateParseImpl : jsstring → option Z;
  (** one [sharp(...)...png()] pipeline on the decoded image, with the
      overlay colour of the tinted tiers: the PNG it writes, or its error *)
  sharp : tier → jsstring → option rgb → result blob;
  (** [JSON.parse(fs.readFileSync('models/pass.json'))] *)
  readTemplate : result PassJson;
  (** the three [fs.readFileSync] of the icons *)
  readIcons : result (blob * blob * blob);
  (** [new PKPass(modelFiles, certificates).getAsBuffer()], the reading of
      the certificates included. The first argument is the document that
      [JSON.stringify] writes into the ['pass.json'] entry of [modelFiles],
      the second the other entries. *)
  signPass : PassJson → list (jsstring * blob) → result blob;
  (** [fs.promises.mkdir] and [fs.promises.writeFile] of the archive *)
  writeArchive : jsstring → result unit;
  (** what a failed [fs.promises.writeFile] leaves at the path: [None] when
      the file was not opened (the path is as before), or the content of
      the file it had created or truncated before failing *)
  partialWrite : jsstring → blob → option blob;
  (** [fs.unlinkSync] of an existing file *)
  unlinkSync : jsstring → result unit
}.

(** ** The program *)

(** [path.join] of a directory and a file name that needs no normalising. *)
Definition path_join (dir name : jsstring) : jsstring := dir ++ js "/" ++ name.

Definition outputDir : jsstring := js "/tmp".

Definition tierName (t : tier) : jsstring :=
  match t with
  | Base => js "strip.png"
  | Tier2x => js "strip@2x.png"
  | Tier3x => js "strip@3x.png"
  end.

Definition tierPath (t : tier) : jsstring := path_join outputDir (tierName t).

(** [await sharp(imageBuffer)...toFile(path)] *)
Definition toFile (env : Env) (t : tier) (image : jsstring) (overlay : option rgb) : M unit :=
  λ st, match sharp env t image overlay with
        | Ok png => (Ok (), {| files := <[tierPath t := png]> (files st);
                               filesToCleanup := filesToCleanup st |})
        | Throw e => (Throw e, st)
        end.

(** [parseRGBColor(backgroundColor || DEFAULT_BACKGROUND_COLOR)] as the
    overlay of a tinted tier. *)
Definition overlayColor (backgroundColor : jsstring) : M rgb :=
  match resolveColor (Some backgroundColor) with
  | Some c => ret c
  | None => throw (js "Maximum call stack size exceeded")
  end.

(** Helper function to process base64 image (lines 32-84). The three
    awaited pipelines run one after the other. The embedding serves one
    request at a time: what another request does to the same three paths
    between two awaits is not part of it, so the properties below speak of
    what this run calls, returns and registers, and of the paths it leaves
    alone. *)
Definition processBase64Image (env : Env) (base64String backgroundColor : jsstring)
  : M (jsstring * jsstring * jsstring) :=
  tryCatch
    (toFile env Base base64String None ;;;
     c2 <~ overlayColor backgroundColor ;;
     toFile env Tier2x base64String (Some c2) ;;;
     c3 <~ overlayColor backgroundColor ;;
     toFile env Tier3x base64String (Some c3) ;;;
     ret (tierPath Base, tierPath Tier2x, tierPath Tier3x))%js
    (λ e, throw (js "Image processing failed: " ++ e)).

(** Cleanup function (lines 87-93). *)
Fixpoint cleanupFiles (env : Env) (fileList : list jsstring) : M unit :=
  match fileList with
  | [] => ret ()
  | file :: rest =>
      λ st, match files st !! file with
            | Some _ =>
                match unlinkSync env file with
                | Ok _ => cleanupFiles env rest
                            {| files := delete file (files st);
                               filesToCleanup := filesToCleanup st |}
                | Throw e => (Throw e, st)
                end
            | None => cleanupFiles env rest st
            end
  end.

(** [Number.prototype.toString] of an integer. *)
Definition toString (n : Z) : jsstring := js (NilEmpty.string_of_int (Z.to_int n)).

(** The request's value of an optional string field. *)
Definition ofField (x : option jsstring) : jsvalue :=
  match x with
  | Some s => VString s
  | None => VUndefined
  end.

(** [fields[0].value = v] *)
Definition setValue0 (fields : list Field) (v : jsvalue) : result (list Field) :=
  match fields with
  | f :: rest => Ok ({| value := v; otherKeys := otherKeys f |} :: rest)
  | [] => Throw (js "Cannot set properties of undefined (setting 'value')")
  end.

Definition qrBarcode (downloadUrl : jsstring) : Barcode :=
  {| message := downloadUrl;
     format := js "PKBarcodeFormatQR";
     messageEncoding := js "iso-8859-1";
     altText := js "QR code" |}.

Definition downloadUrlOf (env : Env) (uniqueId : jsstring) : jsstring :=
  protocol env ++ js "://" ++ host env ++ js "/passes/" ++ uniqueId ++ js ".pkpass".

(** Lines 148-151: the Date stored in the header field. *)
Definition expirationDate (env : Env) (expiry : jsstring) : option Z :=
  let d := JSDate.newDate (dateParseImpl env) expiry in
  JSDate.setDate (tz env) d ((λ n, n + 1) <$> JSDate.getDate (tz env) d).

(** Lines 123-152: the template patched with the request. *)
Definition updatePass (env : Env) (req : Request) (uniqueId : jsstring) (template : PassJson)
  : result PassJson :=
  let downloadUrl := downloadUrlOf env uniqueId in
  match setValue0 (primaryFields (coupon template)) (ofField (discount req)) with
  | Throw e => Throw e
  | Ok primary =>
      match (if truthy (serviceType req)
             then setValue0 (secondaryFields (coupon template)) (ofField (serviceType req))
             else Ok (secondaryFields (coupon template))) with
      | Throw e => Throw e
      | Ok secondary =>
          match (match expiryDate req with
                 | Some (c :: s) =>
                     setValue0 (headerFields (coupon template))
                               (VDate (expirationDate env (c :: s)))
                 | _ => Ok (headerFields (coupon template))
                 end) with
          | Throw e => Throw e
          | Ok header =>
              Ok {| serialNumber := uniqueId;
                    barcode := qrBarcode downloadUrl;
                    barcodes := [qrBarcode downloadUrl];
                    backgroundColor := orDefault (reqBackgroundColor req);
                    coupon := {| headerFields := header;
                                 primaryFields := primary;
                                 secondaryFields := secondary |};
                    otherProps := otherProps template |}
          end
      end
  end.

(** [fs.readFileSync(path)] of a scratch file. *)
Definition readFileSync (path : jsstring) : M blob :=
  λ st, match files st !! path with
        | Some content => (Ok content, st)
        | None => (Throw (js "ENOENT: no such file or directory"), st)
        end.

Definition pushCleanup (paths : list jsstring) : M unit :=
  λ st, (Ok (), {| files := files st; filesToCleanup := filesToCleanup st ++ paths |}).

(** Lines 181-183. The write opens the file with flag ['w'], which creates
    or truncates it, so a write that fails may leave a file behind. *)
Definition writeFile (env : Env) (path : jsstring) (content : blob) : M unit :=
  λ st, match writeArchive env path with
        | Ok _ => (Ok (), {| files := <[path := content]> (files st);
                             filesToCleanup := filesToCleanup st |})
        | Throw e =>
            (Throw e,
             {| files := match partialWrite env path content with
                         | Some part => <[path := part]> (files st)
                         | None => files st
                         end;
                filesToCleanup := filesToCleanup st |})
        end.

Definition getCleanup : M (list jsstring) := λ st, (Ok (filesToCleanup st), st).

(** What a run of the [try] block that reaches [res.json] has produced.
    [modelFiles] are the entries besides ['pass.json'], which is [passJson]. *)
Record Generated : Type := {
  passJson : PassJson;
  modelFiles : list (jsstring * blob);
  uniqueId : jsstring;
  downloadUrl : jsstring;
  passPath : jsstring
}.

(** The [try] block of the handler (lines 100-193). *)
Definition tryBlock (env : Env) (req : Request) : M Generated :=
  (stripImages <~
     match stripImage req with
     | Some (c :: s) =>
         imgs <~ processBase64Image env (c :: s) (orDefault (reqBackgroundColor req)) ;;
         pushCleanup [imgs.1.1; imgs.1.2; imgs.2] ;;;
         ret (Some imgs)
     | _ => ret None
     end ;;
   let uniqueId := toString (now env) in
   let downloadUrl := downloadUrlOf env uniqueId in
   template <~ lift (readTemplate env) ;;
   passJson <~ lift (updatePass env req uniqueId template) ;;
   icons <~ lift (readIcons env) ;;
   strips <~
     match stripImages with
     | Some (strip, strip2x, strip3x) =>
         f1 <~ readFileSync strip ;;
         f2 <~ readFileSync strip2x ;;
         f3 <~ readFileSync strip3x ;;
         ret [(js "strip.png", f1); (js "strip@2x.png", f2); (js "strip@3x.png", f3)]
     | None => ret []
     end ;;
   let modelFiles :=
     [(js "icon.png", icons.1.1); (js "icon@2x.png", icons.1.2); (js "icon@3x.png", icons.2)]
     ++ strips in
   buffer <~ lift (signPass env passJson modelFiles) ;;
   let passPath := path_join (js "temp") (uniqueId ++ js ".pkpass") in
   writeFile env passPath buffer ;;;
   toClean <~ getCleanup ;;
   cleanupFiles env toClean ;;;
   ret {| passJson := passJson; modelFiles := modelFiles; uniqueId := uniqueId;
          downloadUrl := downloadUrl; passPath := passPath |})%js.

(** What the caller gets. *)
Inductive Response : Type :=
| Success (passUrl passId : jsstring)
| Failure (details : jsstring)
| NoResponse (message : jsstring).

Record Outcome : Type := {
  response : Response;
  generated : option Generated;
  disk : gmap jsstring blob
}.

(** Main pass generation endpoint (lines 96-204), run on the disk [disk0].
    [NoResponse] is the [catch] block throwing in its turn, in
    [cleanupFiles]: the promise of the handler is rejected and neither
    [res.json] is reached. *)
Definition generatePass (env : Env) (req : Request) (disk0 : gmap jsstring blob) : Outcome :=
  match tryBlock env req {| files := disk0; filesToCleanup := [] |} with
  | (Ok gen, st) =>
      {| response := Success (downloadUrl gen) (uniqueId gen);
         generated := Some gen;
         disk := files st |}
  | (Throw e, st) =>
      match cleanupFiles env (filesToCleanup st) st with
      | (Ok _, st') =>
          {| response := Failure e; generated := None; disk := files st' |}
      | (Throw e', st') =>
          {| response := NoResponse e'; generated := None; disk := files st' |}
      end
  end.

(** ** Sample inputs *)

Definition sampleField (key text : jsstring) : Field :=
  {| value := VString text; otherKeys := [(js "key", VString key)] |}.

(** A template of the expected shape: one coupon with one field in each of
    the three slots. *)
Definition sampleTemplate : PassJson :=
  {| serialNumber := js "0000";
     barcode := qrBarcode (js "placeholder");
     barcodes := [];
     backgroundColor := js "rgb(60, 65, 76)";
     coupon := {| headerFields := [sampleField (js "expires") (js "EXPIRES")];
                  primaryFields := [sampleField (js "offer") (js "OFFER")];
                  secondaryFields := [sampleField (js "service") (js "SERVICE")] |};
     otherProps := [(js "formatVersion", VNumber 1)] |}.

(** The text of the primary field, as a stand-in for the signed bytes. *)
Definition sampleSign (pj : PassJson) (assets : list (jsstring * blob)) : result blob :=
  match primaryFields (coupon pj) with
  | {| value := VString s |} :: _ => Ok (serialNumber pj ++ js ":" ++ s)
  | _ => Ok (serialNumber pj)
  end.

(** A host on UTC where every collaborator succeeds; the clock reads
    2025-01-10T00:00:00.000Z. *)
Definition sampleEnv : Env :=
  {| now := 1736467200000;
     protocol := js "https";
     host := js "example.com";
     tz := λ _ _, 0;
     dateParseImpl := λ _, None;
     sharp := λ t image _, Ok (tierName t ++ image);
     readTemplate := Ok sampleTemplate;
     readIcons := Ok (js "icon1", js "icon2", js "icon3");
     signPass := sampleSign;
     writeArchive := λ _, Ok ();
     partialWrite := λ _ _, None;
     unlinkSync := λ _, Ok () |}.

(** The same host, with an image library that writes the base tier and
    fails on the 2x tier. *)
Definition tier2FailsEnv : Env :=
  {| now := now sampleEnv;
     protocol := protocol sampleEnv;
     host := host sampleEnv;
     tz := tz sampleEnv;
     dateParseImpl := dateParseImpl sampleEnv;
     sharp := λ t image _,
       match t with
       | Base => Ok (tierName t ++ image)
       | _ => Throw (js "unable to write file")
       end;
     readTemplate := readTemplate sampleEnv;
     readIcons := readIcons sampleEnv;
     signPass := signPass sampleEnv;
     writeArchive := writeArchive sampleEnv;
     partialWrite := partialWrite sampleEnv;
     unlinkSync := unlinkSync sampleEnv |}.

(** US Eastern time in 2025: UTC-5, and UTC-4 from 2025-03-09T07:00Z to
    2025-11-02T06:00Z. *)
Definition easternTime2025 : JSDate.timezone :=
  λ t isUTC,
    let start := 1741503600000 in
    let stop := 1762063200000 in
    let summer :=
      if isUTC then (start <=? t) && (t <? stop)
      else (start - 4 * 3600000 <=? t) && (t <? stop - 4 * 3600000) in
    if summer then - 4 * 3600000 else - 5 * 3600000.

Definition easternEnv : Env :=
  {| now := now sampleEnv;
     protocol := protocol sampleEnv;
     host := host sampleEnv;
     tz := easternTime2025;
     dateParseImpl := dateParseImpl sampleEnv;
     sharp := sharp sampleEnv;
     readTemplate := readTemplate sampleEnv;
     readIcons := readIcons sampleEnv;
     signPass := signPass sampleEnv;
     writeArchive := writeArchive sampleEnv;
     partialWrite := partialWrite sampleEnv;
     unlinkSync := unlinkSync sampleEnv |}.

(** Scenario A of the specification. *)
Definition requestA : Request :=
  {| expiryDate := Some (js "2025-06-01");
     serviceType := Some (js "Gold");
     discount := Some (js "20%");
     reqBackgroundColor := None;
     stripImage := None |}.

(** A second, different request. *)
Definition requestB : Request :=
  {| expiryDate := None;
     serviceType := Some (js "Silver");
     discount := Some (js "50%");
     reqBackgroundColor := Some (js "rgb(10,20,30)");
     stripImage := None |}.

Definition requestWith (expiry colour image : option jsstring) : Request :=
  {| expiryDate := expiry;
     serviceType := Some (js "Gold");
     discount := Some (js "20%");
     reqBackgroundColor := colour;
     stripImage := image |}.

(** The header field of a document, as [JSON.stringify] writes a Date. *)
Definition headerJSON (pj : PassJson) : option (option jsstring) :=
  match headerFields (coupon pj) with
  | {| value := VDate tv |} :: _ => Some (JSDate.toJSON tv)
  | _ => None
  end.



(** The sample host with a full disk: the archive is created and the write
    fails, an empty file is left. *)
Definition diskFullEnv : Env :=
  {| now := now sampleEnv;
     protocol := protocol sampleEnv;
     host := host sampleEnv;
     tz := tz sampleEnv;
     dateParseImpl := dateParseImpl sampleEnv;
     sharp := sharp sampleEnv;
     readTemplate := readTemplate sampleEnv;
     readIcons := readIcons sampleEnv;
     signPass := signPass sampleEnv;
     writeArchive := λ _, Throw (js "ENOSPC: no space left on device");
     partialWrite := λ _ _, Some [];
     unlinkSync := unlinkSync sampleEnv |}.


(** A computation that leaves the [filesToCleanup] array as it found it. *)
Definition keepsList {A} (m : M A) : Prop :=
  ∀ st res st', m st = (res, st') → filesToCleanup st' = filesToCleanup st.

Definition scratchPaths : list jsstring := [tierPath Base; tierPath Tier2x; tierPath Tier3x].

(** ** Further sample inputs *)

(** A disk with a stale base tier and an unrelated file. *)
Definition sampleDisk : gmap jsstring blob :=
  <[js "/tmp/strip.png" := js "stale"]> (<[js "notes.txt" := js "keep"]> ∅).

(** The sample host with a file system that refuses to delete the 2x tier. *)
Definition unlinkFailsEnv : Env :=
  {| now := now sampleEnv;
     protocol := protocol sampleEnv;
     host := host sampleEnv;
     tz := tz sampleEnv;
     dateParseImpl := dateParseImpl sampleEnv;
     sharp := sharp sampleEnv;
     readTemplate := readTemplate sampleEnv;
     readIcons := readIcons sampleEnv;
     signPass := signPass sampleEnv;
     writeArchive := writeArchive sampleEnv;
     partialWrite := partialWrite sampleEnv;
     unlinkSync := λ path,
       if decide (path = js "/tmp/strip@2x.png") then Throw (js "EPERM") else Ok () |}.

(** The sample host with a signer that fails. *)
Definition signFailsEnv : Env :=
  {| now := now sampleEnv;
     protocol := protocol sampleEnv;
     host := host sampleEnv;
     tz := tz sampleEnv;
     dateParseImpl := dateParseImpl sampleEnv;
     sharp := sharp sampleEnv;
     readTemplate := readTemplate sampleEnv;
     readIcons := readIcons sampleEnv;
     signPass := λ _ _, Throw (js "Invalid certificate");
     writeArchive := writeArchive sampleEnv;
     partialWrite := partialWrite sampleEnv;
     unlinkSync := unlinkSync sampleEnv |}.

Definition imageRequest : Request := requestWith None None (Some (js "IMG")).

Definition freshState (disk0 : gmap jsstring blob) : State :=
  {| files := disk0; filesToCleanup := [] |}.

(** The archive path of a request served by [env]. *)
Definition archivePath (env : Env) : jsstring :=
  path_join (js "temp") (toString (now env) ++ js ".pkpass").

(** The icons as the bundle names them. *)
Definition iconAssets (icons : blob * blob * blob) : list (jsstring * blob) :=
  [(js "icon.png", icons.1.1); (js "icon@2x.png", icons.1.2); (js "icon@3x.png", icons.2)].

(** A computation that, started with only scratch paths registered for
    cleanup, keeps it so and changes the disk at paths in [P] only. *)
Definition confined {A} (P : jsstring → Prop) (m : M A) : Prop :=
  ∀ st res st',
    filesToCleanup st ⊆ scratchPaths →
    m st = (res, st') →
    filesToCleanup st' ⊆ scratchPaths
    ∧ ∀ path, ¬ P path → files st' !! path = files st !! path.

(** A Number that counts something: a non-negative integer or Infinity,
    and not NaN. *)
Definition isCount (x : number) : Prop :=
  match x with
  | Finite z => 0 ≤ z
  | Infinity => True
  | NaN => False
  end.

(** The sample host with a template that has a primary field only. *)
Definition primaryOnlyEnv : Env :=
  {| now := now sampleEnv;
     protocol := protocol sampleEnv;
     host := host sampleEnv;
     tz := tz sampleEnv;
     dateParseImpl := dateParseImpl sampleEnv;
     sharp := sharp sampleEnv;
     readTemplate :=
       Ok {| serialNumber := serialNumber sampleTemplate;
             barcode := barcode sampleTemplate;
             barcodes := barcodes sampleTemplate;
             backgroundColor := backgroundColor sampleTemplate;
             coupon := {| headerFields := [];
                          primaryFields := primaryFields (coupon sampleTemplate);
                          secondaryFields := [] |};
             otherProps := otherProps sampleTemplate |};
     readIcons := readIcons sampleEnv;
     signPass := signPass sampleEnv;
     writeArchive := writeArchive sampleEnv;
     partialWrite := partialWrite sampleEnv;
     unlinkSync := unlinkSync sampleEnv |}.

Definition discountOnly : Request :=
  {| expiryDate := None; serviceType := None; discount := Some (js "5 EUR");
     reqBackgroundColor := None; stripImage := None |}.

(** The paths a request served by [env] may change. *)
Definition ownPath (env : Env) (path : jsstring) : Prop :=
  path ∈ scratchPaths ∨ path = archivePath env.

(** A disk that holds the three tiers of an earlier derivation. *)
Definition threeTiersDisk : gmap jsstring blob :=
  <[js "/tmp/strip.png" := js "a"]>
    (<[js "/tmp/strip@2x.png" := js "b"]> (<[js "/tmp/strip@3x.png" := js "c"]> ∅)).

(** * Properties *)

(** ** The pattern matcher against the pattern's language *)

Module RegexFacts.
Import Regex.

Lemma js_comma : js "," = [44%N].
Proof. reflexivity. Qed.

Lemma js_close : js ")" = [41%N].
Proof. reflexivity. Qed.

Lemma digit_cases c :
  isDigit c = true →
  (c = 48 ∨ c = 49 ∨ c = 50 ∨ c = 51 ∨ c = 52 ∨ c = 53 ∨ c = 54 ∨ c = 55 ∨ c = 56 ∨ c = 57)%N.
Proof.
  unfold isDigit. intros [H1 H2]%andb_true_iff.
  apply N.leb_le in H1. apply N.leb_le in H2. lia.
Qed.

Lemma digit_not_space c : isDigit c = true → isSpace c = false.
Proof.
  intros H. apply digit_cases in H.
  repeat (destruct H as [-> | H]; [reflexivity |]). by subst.
Qed.

Lemma span_spec p s a rest :
  span p s = (a, rest) →
  s = a ++ rest ∧ Forall (λ c, p c = true) a
  ∧ match rest with [] => True | c :: _ => p c = false end.
Proof.
  revert a rest. induction s as [|c s IH]; intros a rest; simpl.
  - intros [= <- <-]. by repeat split.
  - destruct (p c) eqn:Hc.
    + destruct (span p s) as [a' b'] eqn:Hs. intros [= <- <-].
      destruct (IH a' b' eq_refl) as (-> & Ha & Hb).
      repeat split; [by constructor | done].
    + intros [= <- <-]. repeat split; [by constructor | done].
Qed.

Lemma span_app p a rest :
  Forall (λ c, p c = true) a →
  match rest with [] => True | c :: _ => p c = false end →
  span p (a ++ rest) = (a, rest).
Proof.
  intros Ha Hr. induction Ha as [|c a Hc _ IH]; simpl.
  - destruct rest as [|c rest]; [done |]. simpl. by rewrite Hr.
  - by rewrite Hc, IH.
Qed.

Lemma literal_app lit s : literal lit (lit ++ s) = Some s.
Proof.
  induction lit as [|a lit IH]; simpl; [by destruct s |].
  by rewrite N.eqb_refl.
Qed.

Lemma literal_Some lit s rest : literal lit s = Some rest → s = lit ++ rest.
Proof.
  revert s. induction lit as [|a lit IH]; intros s; simpl.
  - destruct s; by intros [= ->].
  - destruct s as [|c s]; [done |].
    destruct (N.eqb_spec a c) as [-> |]; [| done].
    intros H. by rewrite (IH _ H).
Qed.

Lemma digits1_app m rest :
  isDigits m →
  match rest with [] => True | c :: _ => isDigit c = false end →
  digits1 (m ++ rest) = Some (m, rest).
Proof.
  intros [Hne Hm] Hr. unfold digits1. rewrite span_app by done.
  by destruct m.
Qed.

Lemma digits1_Some s m rest :
  digits1 s = Some (m, rest) →
  s = m ++ rest ∧ isDigits m ∧ match rest with [] => True | c :: _ => isDigit c = false end.
Proof.
  unfold digits1. destruct (span isDigit s) as [a b'] eqn:Hs.
  destruct a as [|c a]; [done |]. intros [= <- <-].
  destruct (span_spec _ _ _ _ Hs) as (-> & Ha & Hb). by repeat split.
Qed.

Lemma spaces_app w m rest :
  isSpaces w → isDigits m → spaces (w ++ m ++ rest) = m ++ rest.
Proof.
  intros Hw [Hne Hm]. unfold spaces. rewrite span_app; [done | done |].
  destruct m as [|c m]; [done |]. simpl.
  apply digit_not_space. by inversion Hm.
Qed.

Lemma spaces_spec s : ∃ w, s = w ++ spaces s ∧ isSpaces w.
Proof.
  unfold spaces. destruct (span isSpace s) as [w rest] eqn:Hs.
  destruct (span_spec _ _ _ _ Hs) as (-> & Hw & _). by exists w.
Qed.

(** The matcher finds the match that starts a string. *)
Lemma matchHere_complete m1 w1 m2 w2 m3 post :
  isDigits m1 → isDigits m2 → isDigits m3 → isSpaces w1 → isSpaces w2 →
  matchHere (matchText m1 w1 m2 w2 m3 ++ post) = Some (m1, m2, m3).
Proof.
  intros H1 H2 H3 Hw1 Hw2. unfold matchHere, matchText.
  rewrite <- !app_assoc, literal_app. cbn [mbind option_bind].
  rewrite js_comma, js_close. cbn [app].
  rewrite (digits1_app m1) by done. cbn [mbind option_bind].
  change (44%N :: ?x) with (js "," ++ x). rewrite literal_app. cbn [mbind option_bind].
  rewrite (spaces_app w1 m2) by done.
  rewrite (digits1_app m2) by done. cbn [mbind option_bind].
  change (44%N :: ?x) with (js "," ++ x). rewrite literal_app. cbn [mbind option_bind].
  rewrite (spaces_app w2 m3) by done.
  rewrite (digits1_app m3) by done. cbn [mbind option_bind].
  change (41%N :: ?x) with (js ")" ++ x). by rewrite literal_app.
Qed.

(** Whatever the matcher finds at the start of a string is a match of the
    pattern there. *)
Lemma matchHere_sound s m1 m2 m3 :
  matchHere s = Some (m1, m2, m3) → MatchAt [] m1 m2 m3 s.
Proof.
  unfold matchHere. intros H.
  destruct (literal (js "rgb(") s) as [s1 |] eqn:E1; [| done].
  cbn [mbind option_bind] in H.
  destruct (digits1 s1) as [[a1 s2] |] eqn:E2; [| done].
  cbn [mbind option_bind] in H.
  destruct (literal (js ",") s2) as [s3 |] eqn:E3; [| done].
  cbn [mbind option_bind] in H.
  destruct (digits1 (spaces s3)) as [[a2 s4] |] eqn:E4; [| done].
  cbn [mbind option_bind] in H.
  destruct (literal (js ",") s4) as [s5 |] eqn:E5; [| done].
  cbn [mbind option_bind] in H.
  destruct (digits1 (spaces s5)) as [[a3 s6] |] eqn:E6; [| done].
  cbn [mbind option_bind] in H.
  destruct (literal (js ")") s6) as [s7 |] eqn:E7; [| done].
  cbn [mbind option_bind] in H. injection H as <- <- <-.
  apply literal_Some in E1, E3, E5, E7.
  apply digits1_Some in E2 as (E2 & D1 & _).
  apply digits1_Some in E4 as (E4 & D2 & _).
  apply digits1_Some in E6 as (E6 & D3 & _).
  destruct (spaces_spec s3) as (w1 & Ew1 & Hw1).
  destruct (spaces_spec s5) as (w2 & Ew2 & Hw2).
  exists w1, w2, s7. split; [| tauto].
  unfold matchText. rewrite <- !app_assoc. cbn [app].
  by rewrite E1, E2, E3, Ew1, E4, E5, Ew2, E6, E7.
Qed.

(** At a given position the pattern matches in one way only. *)
Lemma MatchAt_here s m1 m2 m3 :
  MatchAt [] m1 m2 m3 s ↔ matchHere s = Some (m1, m2, m3).
Proof.
  split; [| apply matchHere_sound].
  intros (w1 & w2 & post & -> & ?). cbn [app].
  apply matchHere_complete; tauto.
Qed.

Lemma MatchAt_shift pre m1 m2 m3 s :
  MatchAt pre m1 m2 m3 (pre ++ s) ↔ MatchAt [] m1 m2 m3 s.
Proof.
  split; intros (w1 & w2 & post & E & ?); exists w1, w2, post; split; try done.
  - by apply app_inv_head in E.
  - by rewrite E.
Qed.

Lemma MatchAt_prefix pre m1 m2 m3 s :
  MatchAt pre m1 m2 m3 s → ∃ rest, s = pre ++ rest ∧ matchHere rest = Some (m1, m2, m3).
Proof.
  intros (w1 & w2 & post & -> & ?). eexists; split; [done |].
  apply matchHere_complete; tauto.
Qed.

Lemma matchRGB_unfold s :
  matchRGB s = match matchHere s with
               | Some m => Some m
               | None => match s with
                         | [] => None
                         | _ :: s' => matchRGB s'
                         end
               end.
Proof. by destruct s. Qed.

(** No match anywhere: [match] answers [null]. *)
Lemma matchRGB_None s : matchRGB s = None ↔ ¬ Matches s.
Proof.
  split.
  - intros H (pre & m1 & m2 & m3 & HM).
    apply MatchAt_prefix in HM as (rest & -> & HM).
    induction pre as [|c pre IH]; rewrite matchRGB_unfold in H; simpl in H.
    + by rewrite HM in H.
    + destruct (matchHere (c :: pre ++ rest)); [done | auto].
  - induction s as [|c s IH]; intros H; simpl.
    + reflexivity.
    + destruct (matchHere (c :: s)) as [[[m1 m2] m3] |] eqn:E.
      * destruct H. exists [], m1, m2, m3. by apply MatchAt_here.
      * apply IH. intros (pre & m1 & m2 & m3 & HM). apply H.
        apply MatchAt_prefix in HM as (rest & -> & HM).
        exists (c :: pre), m1, m2, m3.
        apply (MatchAt_shift (c :: pre)). by apply MatchAt_here.
Qed.

(** [match] answers the captures of the leftmost match. *)
Lemma matchRGB_Some s m1 m2 m3 :
  matchRGB s = Some (m1, m2, m3) ↔
  ∃ pre, MatchAt pre m1 m2 m3 s
         ∧ ∀ p a1 a2 a3, MatchAt p a1 a2 a3 s → (length pre ≤ length p)%nat.
Proof.
  split.
  - revert m1 m2 m3. induction s as [|c s IH]; intros m1 m2 m3; simpl.
    + by intros H; vm_compute in H.
    + destruct (matchHere (c :: s)) eqn:E.
      * intros [= ->]. exists []. split; [by apply MatchAt_here |].
        intros; simpl; lia.
      * intros H. destruct (IH _ _ _ H) as (pre & HM & Hleft).
        exists (c :: pre). split.
        -- apply MatchAt_prefix in HM as (rest & -> & HM).
           apply (MatchAt_shift (c :: pre)). by apply MatchAt_here.
        -- intros p a1 a2 a3 Hp.
           destruct p as [|c' p].
           ++ apply MatchAt_here in Hp. congruence.
           ++ apply MatchAt_prefix in Hp as (rest & Es & Hp).
              injection Es as <- ->. simpl.
              assert (length pre ≤ length p)%nat; [| lia].
              apply (Hleft p a1 a2 a3).
              apply MatchAt_shift. by apply MatchAt_here.
  - intros (pre & HM & Hleft).
    apply MatchAt_prefix in HM as (rest & -> & HM).
    induction pre as [|c pre IH]; rewrite matchRGB_unfold; simpl.
    + by rewrite HM.
    + destruct (matchHere (c :: pre ++ rest)) as [[[a1 a2] a3] |] eqn:E.
      * apply MatchAt_here in E. specialize (Hleft [] _ _ _ E). simpl in Hleft. lia.
      * apply IH. intros p a1 a2 a3 Hp.
        apply MatchAt_prefix in Hp as (rest' & Es & Hp).
        assert (length (c :: pre) ≤ length (c :: p))%nat; [| simpl in *; lia].
        apply (Hleft (c :: p) a1 a2 a3). simpl. rewrite Es.
        apply (MatchAt_shift (c :: p)). by apply MatchAt_here.
Qed.

End RegexFacts.

(** ** [parseInt] and [parseRGBColor] *)

Section Colour.
Import Regex RegexFacts.

Lemma parseInt_digits m : isDigits m → parseInt m = toDouble (decimalValue m).
Proof.
  intros [Hne Hm]. unfold parseInt.
  rewrite <- (app_nil_r m) at 1. rewrite span_app by done.
  by destruct m.
Qed.

Lemma toDouble_exact n : n < 2 ^ 53 → toDouble n = Finite n.
Proof. intros H. unfold toDouble. by rewrite (proj2 (Z.ltb_lt _ _) H). Qed.

Lemma parseInt_exact m :
  isDigits m → decimalValue m < 2 ^ 53 → parseInt m = Finite (decimalValue m).
Proof. intros Hm Hlt. by rewrite parseInt_digits, toDouble_exact. Qed.

Lemma default_matches :
  matchRGB DEFAULT_BACKGROUND_COLOR = Some (js "41", js "128", js "185").
Proof. reflexivity. Qed.

Lemma parseRGBColor_match n s m1 m2 m3 :
  matchRGB s = Some (m1, m2, m3) →
  parseRGBColor (S n) s = Some (RGB (parseInt m1) (parseInt m2) (parseInt m3)).
Proof. intros H. simpl. by rewrite H. Qed.

Lemma parseRGBColor_fallback n s :
  matchRGB s = None → parseRGBColor (S (S n)) s = Some defaultColor.
Proof.
  intros H. change (parseRGBColor (S (S n)) s) with
    (match matchRGB s with
     | None => parseRGBColor (S n) DEFAULT_BACKGROUND_COLOR
     | Some (m1, m2, m3) => Some (RGB (parseInt m1) (parseInt m2) (parseInt m3))
     end).
  rewrite H. by rewrite (parseRGBColor_match n _ _ _ _ default_matches).
Qed.

(** Two frames are enough, and more change nothing. *)
Lemma parseRGBColor_fuel n s : parseRGBColor (2 + n) s = parseRGBColor 2 s.
Proof.
  change (2 + n)%nat with (S (S n)).
  destruct (matchRGB s) as [[[m1 m2] m3] |] eqn:E.
  - by rewrite (parseRGBColor_match (S n) _ _ _ _ E), (parseRGBColor_match 1 _ _ _ _ E).
  - by rewrite (parseRGBColor_fallback n), (parseRGBColor_fallback 0).
Qed.


Lemma orDefault_nonempty s : s ≠ [] → orDefault (Some s) = s.
Proof. by destruct s. Qed.

Lemma Matches_nonempty s : Matches s → s ≠ [].
Proof.
  intros (pre & m1 & m2 & m3 & w1 & w2 & post & -> & _).
  unfold matchText. by destruct pre.
Qed.

(** C8. [parseRGBColor] is total on strings and its recursion ends: the
    default colour constant matches the pattern, so a string with a match
    returns within the first call, a string without one returns after
    exactly one fallback call (one call is not enough, two are), and in both
    cases the call returns an (r, g, b) record, whatever further depth it is
    given. *)
Theorem parseRGBColor_total (s : jsstring) :
  matchRGB DEFAULT_BACKGROUND_COLOR = Some (js "41", js "128", js "185")
  ∧ (∃ c, ∀ n, parseRGBColor (2 + n) s = Some c)
  ∧ ((Matches s ∧ ∃ c, ∀ n, parseRGBColor (1 + n) s = Some c)
     ∨ (¬ Matches s ∧ parseRGBColor 1 s = None
        ∧ ∀ n, parseRGBColor (2 + n) s = Some defaultColor)).
Proof.
  split; [exact default_matches |].
  destruct (matchRGB s) as [[[m1 m2] m3] |] eqn:E.
  - split.
    + eexists. intros n. by apply parseRGBColor_match.
    + left. split.
      * destruct (proj1 (matchRGB_Some _ _ _ _) E) as (pre & HM & _).
        by exists pre, m1, m2, m3.
      * eexists. intros n. by apply parseRGBColor_match.
  - split.
    + exists defaultColor. intros n. by apply parseRGBColor_fallback.
    + right. split; [by apply matchRGB_None |]. split.
      * simpl. by rewrite E.
      * intros n. by apply parseRGBColor_fallback.
Qed.

(** C5, as the code has it. A string that contains a match of the
    pattern resolves to the integers of its leftmost match, whatever their
    size: to the triple (r, g, b) when they are in [0,255] (in particular
    for a string that is such a match), and to the same integers, never to
    the default, when one is larger (as Numbers: exact below 2^53, rounded
    as a double beyond). Only a string that contains no match
    of the pattern anywhere, and an absent or empty colour, resolve to the
    default sky blue (41, 128, 185). Every string is in one of the two
    cases. *)
Theorem resolveColor_spec :
  (∀ s pre m1 m2 m3,
     MatchAt pre m1 m2 m3 s →
     (∀ p a1 a2 a3, MatchAt p a1 a2 a3 s → (length pre ≤ length p)%nat) →
     resolveColor (Some s)
     = Some (RGB (toDouble (decimalValue m1)) (toDouble (decimalValue m2))
                 (toDouble (decimalValue m3))))
  ∧ (∀ n, n < 2 ^ 53 → toDouble n = Finite n)
  ∧ (∀ s pre m1 m2 m3,
       MatchAt pre m1 m2 m3 s →
       (∀ p a1 a2 a3, MatchAt p a1 a2 a3 s → (length pre ≤ length p)%nat) →
       decimalValue m1 ≤ 255 → decimalValue m2 ≤ 255 → decimalValue m3 ≤ 255 →
       resolveColor (Some s)
       = Some (RGB (Finite (decimalValue m1)) (Finite (decimalValue m2))
                   (Finite (decimalValue m3))))
  ∧ (∀ m1 w1 m2 w2 m3,
       isDigits m1 → isDigits m2 → isDigits m3 → isSpaces w1 → isSpaces w2 →
       decimalValue m1 ≤ 255 → decimalValue m2 ≤ 255 → decimalValue m3 ≤ 255 →
       resolveColor (Some (matchText m1 w1 m2 w2 m3))
       = Some (RGB (Finite (decimalValue m1)) (Finite (decimalValue m2))
                   (Finite (decimalValue m3))))
  ∧ (∀ s, Matches s →
       ∃ pre m1 m2 m3,
         MatchAt pre m1 m2 m3 s
         ∧ ∀ p a1 a2 a3, MatchAt p a1 a2 a3 s → (length pre ≤ length p)%nat)
  ∧ (∀ s, ¬ Matches s → resolveColor (Some s) = Some (RGB (Finite 41) (Finite 128) (Finite 185)))
  ∧ resolveColor None = Some (RGB (Finite 41) (Finite 128) (Finite 185)).
Proof.
  assert (Hany : ∀ s pre m1 m2 m3,
     MatchAt pre m1 m2 m3 s →
     (∀ p a1 a2 a3, MatchAt p a1 a2 a3 s → (length pre ≤ length p)%nat) →
     resolveColor (Some s)
     = Some (RGB (toDouble (decimalValue m1)) (toDouble (decimalValue m2))
                 (toDouble (decimalValue m3)))).
  { intros s pre m1 m2 m3 HM Hl.
    assert (Hs : s ≠ []) by (apply Matches_nonempty; by exists pre, m1, m2, m3).
    assert (E : matchRGB s = Some (m1, m2, m3)) by (apply matchRGB_Some; eauto).
    unfold resolveColor, callDepth. rewrite orDefault_nonempty by done.
    rewrite (parseRGBColor_match _ _ _ _ _ E).
    destruct HM as (w1 & w2 & post & _ & D1 & D2 & D3 & _).
    by rewrite !parseInt_digits. }
  assert (Hleft : ∀ s pre m1 m2 m3,
     MatchAt pre m1 m2 m3 s →
     (∀ p a1 a2 a3, MatchAt p a1 a2 a3 s → (length pre ≤ length p)%nat) →
     decimalValue m1 ≤ 255 → decimalValue m2 ≤ 255 → decimalValue m3 ≤ 255 →
     resolveColor (Some s)
     = Some (RGB (Finite (decimalValue m1)) (Finite (decimalValue m2))
                 (Finite (decimalValue m3)))).
  { intros s pre m1 m2 m3 HM Hl H1 H2 H3.
    rewrite (Hany s pre m1 m2 m3 HM Hl).
    rewrite !toDouble_exact; [done | lia | lia | lia]. }
  split; [exact Hany |]. split; [exact toDouble_exact |]. split; [exact Hleft |].
  split; [| split; [| split; [| reflexivity]]].
  - intros m1 w1 m2 w2 m3 D1 D2 D3 W1 W2 H1 H2 H3.
    apply (Hleft _ []); try done.
    + exists w1, w2, []. by rewrite app_nil_r.
    + intros; simpl; lia.
  - intros s Hs.
    destruct (matchRGB s) as [[[m1 m2] m3] |] eqn:E.
    + destruct (proj1 (matchRGB_Some _ _ _ _) E) as (pre & HM & Hl).
      by exists pre, m1, m2, m3.
    + by apply matchRGB_None in E.
  - intros s Hn. unfold resolveColor, callDepth.
    destruct s as [|c s]; [reflexivity |].
    apply parseRGBColor_fallback. by apply matchRGB_None.
Qed.

(** C9. The pattern is not anchored and the components are not clamped:
    a string that merely contains a text of the form rgb(d1, d2, d3) is
    accepted, and resolves within the first call to the integers of its
    leftmost such text; the integer read from a run of digits is its
    decimal value, however far above 255; a string containing
    rgb(999, 0, 0) resolves to r = 999 and not to the default. *)
Theorem parseRGBColor_unanchored_unclamped :
  (∀ n s, Matches s →
     ∃ pre m1 m2 m3,
       MatchAt pre m1 m2 m3 s
       ∧ (∀ p a1 a2 a3, MatchAt p a1 a2 a3 s → (length pre ≤ length p)%nat)
       ∧ parseRGBColor (S n) s = Some (RGB (parseInt m1) (parseInt m2) (parseInt m3)))
  ∧ (∀ n pre m1 w1 m2 w2 m3 post,
       isDigits m1 → isDigits m2 → isDigits m3 → isSpaces w1 → isSpaces w2 →
       ¬ (114%N ∈ pre) →
       parseRGBColor (S n) (pre ++ matchText m1 w1 m2 w2 m3 ++ post)
       = Some (RGB (parseInt m1) (parseInt m2) (parseInt m3)))
  ∧ (∀ m, isDigits m → decimalValue m < 2 ^ 53 → parseInt m = Finite (decimalValue m))
  ∧ resolveColor (Some (js "xx rgb(999, 0, 0) yy"))
    = Some (RGB (Finite 999) (Finite 0) (Finite 0)).
Proof.
  split; [| split; [| split; [exact parseInt_exact | reflexivity]]].
  - intros n s Hs.
    destruct (matchRGB s) as [[[m1 m2] m3] |] eqn:E.
    + destruct (proj1 (matchRGB_Some _ _ _ _) E) as (pre & HM & Hl).
      exists pre, m1, m2, m3. split; [done |]. split; [done |].
      by apply parseRGBColor_match.
    + by apply matchRGB_None in E.
  - intros n pre m1 w1 m2 w2 m3 post D1 D2 D3 W1 W2 Hr.
    apply parseRGBColor_match, matchRGB_Some. exists pre. split.
    + by exists w1, w2, post.
    + intros p a1 a2 a3 (v1 & v2 & q & E & _).
      destruct (decide (length pre ≤ length p)%nat) as [| Hlt]; [done |].
      exfalso. apply Hr.
      assert (El : (pre ++ matchText m1 w1 m2 w2 m3 ++ post) !! length p = Some 114%N).
      { rewrite E. rewrite lookup_app_r by lia. by rewrite Nat.sub_diag. }
      rewrite lookup_app_l in El by lia.
      by apply list_elem_of_lookup_2 in El.
Qed.

End Colour.

(** ** The handler, step by step *)

Section Handler.

Lemma bind_Ok {A B} (m : M A) (k : A → M B) st b st' :
  bind m k st = (Ok b, st') → ∃ a st1, m st = (Ok a, st1) ∧ k a st1 = (Ok b, st').
Proof.
  unfold bind. destruct (m st) as [[a | e] st1]; [eauto | done].
Qed.

Lemma lift_Ok {A} (x : result A) st a st' :
  lift x st = (Ok a, st') → x = Ok a ∧ st' = st.
Proof. by intros [= -> ->]. Qed.

Lemma toFile_Ok env t image overlay st u st' :
  toFile env t image overlay st = (Ok u, st') →
  ∃ png, sharp env t image overlay = Ok png
         ∧ st' = {| files := <[tierPath t := png]> (files st);
                    filesToCleanup := filesToCleanup st |}.
Proof.
  unfold toFile. destruct (sharp env t image overlay) as [png | e]; [| done].
  intros [= <- <-]. eauto.
Qed.

Lemma overlayColor_Ok bg st c st' :
  overlayColor bg st = (Ok c, st') → resolveColor (Some bg) = Some c ∧ st' = st.
Proof.
  unfold overlayColor. destruct (resolveColor (Some bg)); [| done].
  by intros [= -> ->].
Qed.


Lemma processBase64Image_Ok env image bg st imgs st' :
  processBase64Image env image bg st = (Ok imgs, st') →
  imgs = (tierPath Base, tierPath Tier2x, tierPath Tier3x)
  ∧ ∃ p1 p2 p3,
      files st' = <[tierPath Tier3x := p3]> (<[tierPath Tier2x := p2]>
                    (<[tierPath Base := p1]> (files st)))
      ∧ filesToCleanup st' = filesToCleanup st.
Proof.
  unfold processBase64Image, tryCatch.
  destruct (bind _ _ st) as [[a | e] st1] eqn:H; [| done].
  intros [= -> ->].
  apply bind_Ok in H as ([] & s1 & H1 & H). apply toFile_Ok in H1 as (p1 & _ & ->).
  apply bind_Ok in H as (c2 & s2 & H2 & H). apply overlayColor_Ok in H2 as (_ & ->).
  apply bind_Ok in H as ([] & s3 & H3 & H). apply toFile_Ok in H3 as (p2 & _ & ->).
  apply bind_Ok in H as (c3 & s4 & H4 & H). apply overlayColor_Ok in H4 as (_ & ->).
  apply bind_Ok in H as ([] & s5 & H5 & H). apply toFile_Ok in H5 as (p3 & _ & ->).
  injection H as <- <-. split; [done |]. by exists p1, p2, p3.
Qed.

(** A failed derivation registers nothing for cleanup and leaves on disk
    whatever tiers it had written. *)
Lemma processBase64Image_Throw env image bg st e st' :
  processBase64Image env image bg st = (Throw e, st') →
  filesToCleanup st' = filesToCleanup st.
Proof.
  unfold processBase64Image, tryCatch, bind, toFile, overlayColor, throw, ret.
  repeat (match goal with
          | |- context [match sharp ?a ?b ?c ?d with _ => _ end] =>
              destruct (sharp a b c d)
          | |- context [match resolveColor ?x with _ => _ end] =>
              destruct (resolveColor x)
          end; simpl); by intros [= <- <-].
Qed.

Lemma cleanupFiles_cleanup env l st r st' :
  cleanupFiles env l st = (r, st') → filesToCleanup st' = filesToCleanup st.
Proof.
  revert st. induction l as [|file l IH]; intros st; simpl.
  - by intros [= <- <-].
  - destruct (files st !! file); [| apply IH].
    destruct (unlinkSync env file); [| by intros [= <- <-]].
    intros H. by apply IH in H.
Qed.

(** Cleanup touches the listed paths only. *)
Lemma cleanupFiles_other env l st r st' path :
  cleanupFiles env l st = (r, st') → path ∉ l → files st' !! path = files st !! path.
Proof.
  revert st. induction l as [|file l IH]; intros st; simpl.
  - by intros [= <- <-].
  - intros H [Hne Hnl]%not_elem_of_cons.
    destruct (files st !! file); [| by apply IH].
    destruct (unlinkSync env file); [| by injection H as <- <-].
    apply IH in H; [| done]. simpl in H. by rewrite H, lookup_delete_ne.
Qed.

(** A cleanup that returns has left none of the listed paths. *)
Lemma cleanupFiles_removed env l st st' path :
  cleanupFiles env l st = (Ok (), st') → path ∈ l → files st' !! path = None.
Proof.
  revert st. induction l as [|file l IH]; intros st; [by intros _ ?%elem_of_nil |].
  simpl. intros Hcl Hin.
  destruct (decide (path ∈ l)) as [Hl | Hl].
  - destruct (files st !! file); [| by apply (IH _ Hcl)].
    destruct (unlinkSync env file); [by apply (IH _ Hcl) | done].
  - apply elem_of_cons in Hin as [-> | ?]; [| done].
    destruct (files st !! file) eqn:Hf.
    + destruct (unlinkSync env file); [| done].
      rewrite (cleanupFiles_other _ _ _ _ _ _ Hcl Hl). simpl. apply lookup_delete_eq.
    + by rewrite (cleanupFiles_other _ _ _ _ _ _ Hcl Hl).
Qed.

(** Where [unlinkSync] does not fail, cleanup returns. *)
Lemma cleanupFiles_succeeds env l st :
  (∀ path, unlinkSync env path = Ok ()) → ∃ st', cleanupFiles env l st = (Ok (), st').
Proof.
  intros Hu. revert st. induction l as [|file l IH]; intros st; simpl; [by eexists |].
  destruct (files st !! file); [| apply IH]. rewrite Hu. apply IH.
Qed.

Lemma updatePass_Ok env req uid template pj :
  updatePass env req uid template = Ok pj →
  serialNumber pj = uid
  ∧ barcode pj = qrBarcode (downloadUrlOf env uid)
  ∧ barcodes pj = [qrBarcode (downloadUrlOf env uid)]
  ∧ backgroundColor pj = orDefault (reqBackgroundColor req)
  ∧ otherProps pj = otherProps template
  ∧ setValue0 (primaryFields (coupon template)) (ofField (discount req))
    = Ok (primaryFields (coupon pj))
  ∧ (if truthy (serviceType req)
     then setValue0 (secondaryFields (coupon template)) (ofField (serviceType req))
     else Ok (secondaryFields (coupon template))) = Ok (secondaryFields (coupon pj))
  ∧ match expiryDate req with
    | Some (c :: s) =>
        setValue0 (headerFields (coupon template)) (VDate (expirationDate env (c :: s)))
    | _ => Ok (headerFields (coupon template))
    end = Ok (headerFields (coupon pj)).
Proof.
  unfold updatePass.
  destruct (setValue0 (primaryFields _) _) as [primary | ]; [| done].
  destruct (if truthy (serviceType req) then _ else _) as [secondary | ]; [| done].
  destruct (match expiryDate req with Some (c :: s) => _ | _ => _ end)
    as [header | ]; [| done].
  by intros [= <-].
Qed.

Lemma setValue0_Ok fields v fields' :
  setValue0 fields v = Ok fields' →
  ∃ f rest, fields = f :: rest
            ∧ fields' = {| value := v; otherKeys := otherKeys f |} :: rest.
Proof. destruct fields as [|f rest]; [done |]. intros [= <-]. eauto. Qed.

Lemma passPath_not_scratch uid t : path_join (js "temp") uid ≠ tierPath t.
Proof. by destruct t. Qed.

(** What a run of the [try] block that reaches the response has done. *)
Lemma tryBlock_Ok env req disk0 gen st' :
  tryBlock env req {| files := disk0; filesToCleanup := [] |} = (Ok gen, st') →
  ∃ template buffer,
    readTemplate env = Ok template
    ∧ uniqueId gen = toString (now env)
    ∧ downloadUrl gen = downloadUrlOf env (uniqueId gen)
    ∧ passPath gen = path_join (js "temp") (uniqueId gen ++ js ".pkpass")
    ∧ updatePass env req (uniqueId gen) template = Ok (passJson gen)
    ∧ signPass env (passJson gen) (modelFiles gen) = Ok buffer
    ∧ files st' !! passPath gen = Some buffer
    ∧ (∀ t, truthy (stripImage req) = true → files st' !! tierPath t = None).
Proof.
  unfold tryBlock. intros H.
  apply bind_Ok in H as (imgs & st1 & Himg & H). cbn beta zeta in H.
  apply bind_Ok in H as (template & st2 & Ht & H). apply lift_Ok in Ht as [Ht ->].
  apply bind_Ok in H as (pj & st3 & Hp & H). apply lift_Ok in Hp as [Hp ->].
  apply bind_Ok in H as (icons & st4 & Hi & H). apply lift_Ok in Hi as [Hi ->].
  apply bind_Ok in H as (strips & st5 & Hs & H). cbn beta zeta in H.
  apply bind_Ok in H as (buffer & st6 & Hb & H). apply lift_Ok in Hb as [Hb ->].
  apply bind_Ok in H as ([] & st7 & Hw & H).
  apply bind_Ok in H as (toClean & st8 & Hc & H).
  apply bind_Ok in H as ([] & st9 & Hcl & H).
  injection H as <- <-. simpl.
  exists template, buffer. repeat (split; [done |]).
  assert (E5 : st5 = st1).
  { destruct imgs as [[[i1 i2] i3] |]; [| by injection Hs as <- <-].
    unfold bind, readFileSync, ret in Hs.
    repeat (match type of Hs with
            | context [match files ?s !! ?p with _ => _ end] => destruct (files s !! p)
            end; [| done]).
    by injection Hs as <- <-. }
  subst st5. injection Hc as <- <-.
  unfold writeFile in Hw. destruct (writeArchive env _); [| done].
  injection Hw as <-. simpl in Hcl.
  assert (Hclean : filesToCleanup st1 = [] ∧ truthy (stripImage req) = false
                   ∨ filesToCleanup st1 = [tierPath Base; tierPath Tier2x; tierPath Tier3x]
                     ∧ truthy (stripImage req) = true).
  { destruct (stripImage req) as [[|c s] |].
    - left. by injection Himg as <- <-.
    - right. apply bind_Ok in Himg as (paths & s1 & Hpr & Himg).
      apply processBase64Image_Ok in Hpr as (-> & p1 & p2 & p3 & _ & Hfc).
      apply bind_Ok in Himg as ([] & s2 & Hpush & Himg).
      injection Hpush as <-. injection Himg as <- <-. simpl. by rewrite Hfc.
    - left. by injection Himg as <- <-. }
  split.
  - rewrite (cleanupFiles_other _ _ _ _ _ _ Hcl); [simpl; apply lookup_insert_eq |].
    destruct Hclean as [[-> _] | [-> _]]; [apply not_elem_of_nil |].
    rewrite !not_elem_of_cons. repeat split; try apply passPath_not_scratch.
    apply not_elem_of_nil.
  - intros t Ht'. destruct Hclean as [[_ Hf] | [Hfc _]]; [congruence |].
    rewrite Hfc in Hcl.
    assert (Hin : tierPath t ∈ [tierPath Base; tierPath Tier2x; tierPath Tier3x]).
    { destruct t; set_solver. }
    by apply (cleanupFiles_removed _ _ _ _ _ Hcl).
Qed.

Lemma generatePass_generated env req disk0 gen :
  generated (generatePass env req disk0) = Some gen →
  ∃ st', tryBlock env req {| files := disk0; filesToCleanup := [] |} = (Ok gen, st')
         ∧ generatePass env req disk0
           = {| response := Success (downloadUrl gen) (uniqueId gen);
                generated := Some gen; disk := files st' |}.
Proof.
  unfold generatePass.
  destruct (tryBlock env req _) as [[g | e] st] eqn:E.
  - simpl. intros [= ->]. eauto.
  - by destruct (cleanupFiles env _ st) as [[] ?].
Qed.

End Handler.

(** ** The manifest *)

Section Manifest.

(** C2. For every successfully generated pass, the manifest's serial
    number, the identifier in the download URL carried by the singular
    barcode and by the first element of the barcode list, and the file name
    stem of the archive persisted on disk are one identifier: the decimal
    text of the clock reading, which is also the [passId] of the response. *)
Theorem serial_url_archive_agree env req disk0 gen :
  generated (generatePass env req disk0) = Some gen →
  let out := generatePass env req disk0 in
  let id := toString (now env) in
  let url := protocol env ++ js "://" ++ host env ++ js "/passes/" ++ id ++ js ".pkpass" in
  serialNumber (passJson gen) = id
  ∧ message (barcode (passJson gen)) = url
  ∧ message <$> head (barcodes (passJson gen)) = Some url
  ∧ passPath gen = js "temp/" ++ id ++ js ".pkpass"
  ∧ is_Some (disk out !! (js "temp/" ++ id ++ js ".pkpass"))
  ∧ response out = Success url id.
Proof.
  intros Hgen. cbn zeta.
  apply generatePass_generated in Hgen as (st' & Htry & ->).
  apply tryBlock_Ok in Htry as (template & buffer & _ & Hid & Hurl & Hpath & Hup & _ & Hdisk & _).
  apply updatePass_Ok in Hup as (Hs & Hb & Hbs & _).
  rewrite Hid in *. cbn [response disk].
  assert (Hp : passPath gen = js "temp/" ++ toString (now env) ++ js ".pkpass")
    by (by rewrite Hpath).
  rewrite Hs, Hb, Hbs, Hurl, <- Hp.
  repeat split; done.
Qed.

(** C7. In every generated manifest the value of the coupon's primary
    field is the request's discount as it came: the same text, nothing
    appended. *)
Theorem primary_field_verbatim env req disk0 gen :
  generated (generatePass env req disk0) = Some gen →
  ∃ f rest,
    primaryFields (coupon (passJson gen)) = f :: rest
    ∧ value f = ofField (discount req)
    ∧ ∀ text, discount req = Some text → value f = VString text.
Proof.
  intros Hgen.
  apply generatePass_generated in Hgen as (st' & Htry & _).
  apply tryBlock_Ok in Htry as (template & buffer & _ & _ & _ & _ & Hup & _).
  apply updatePass_Ok in Hup as (_ & _ & _ & _ & _ & Hp & _).
  apply setValue0_Ok in Hp as (f & rest & _ & ->).
  eexists _, _. split; [done |]. split; [done |]. by intros text ->.
Qed.

(** C10. A [serviceType] or an [expiryDate] that is present but empty is
    treated exactly as an absent one: the whole outcome of the request is
    the same, and the secondary field, respectively the header field, of
    the manifest is the template's. *)
Theorem empty_string_is_absent env (e s d c i : option jsstring) disk0 :
  generatePass env
    {| expiryDate := e; serviceType := Some []; discount := d;
       reqBackgroundColor := c; stripImage := i |} disk0
  = generatePass env
      {| expiryDate := e; serviceType := None; discount := d;
         reqBackgroundColor := c; stripImage := i |} disk0
  ∧ generatePass env
      {| expiryDate := Some []; serviceType := s; discount := d;
         reqBackgroundColor := c; stripImage := i |} disk0
    = generatePass env
        {| expiryDate := None; serviceType := s; discount := d;
           reqBackgroundColor := c; stripImage := i |} disk0
  ∧ ∀ req gen template,
      generated (generatePass env req disk0) = Some gen →
      readTemplate env = Ok template →
      (serviceType req = Some [] ∨ serviceType req = None →
       secondaryFields (coupon (passJson gen)) = secondaryFields (coupon template))
      ∧ (expiryDate req = Some [] ∨ expiryDate req = None →
         headerFields (coupon (passJson gen)) = headerFields (coupon template)).
Proof.
  split; [reflexivity |]. split; [reflexivity |].
  intros req gen template Hgen Ht.
  apply generatePass_generated in Hgen as (st' & Htry & _).
  apply tryBlock_Ok in Htry as (template' & buffer & Ht' & _ & _ & _ & Hup & _).
  assert (template' = template) as -> by congruence.
  apply updatePass_Ok in Hup as (_ & _ & _ & _ & _ & _ & Hsec & Hhead).
  split.
  - intros [E | E]; rewrite E in Hsec; simpl in Hsec; congruence.
  - intros [E | E]; rewrite E in Hhead; congruence.
Qed.

End Manifest.

(** ** What the signer is handed *)

Section Signer.

Lemma bind_run {A B} (m : M A) (k : A → M B) st a st1 :
  m st = (Ok a, st1) → bind m k st = k a st1.
Proof. intros H. unfold bind. by rewrite H. Qed.

Lemma tierPath_inj a c : tierPath a = tierPath c → a = c.
Proof. by destruct a, c. Qed.




End Signer.

(** ** Dates *)

Section Dates.
Import JSDate.

Lemma monthOfDay_range d l : 0 ≤ monthOfDay d l ≤ 11.
Proof. unfold monthOfDay. repeat case_match; lia. Qed.


Lemma MakeDay_small y m d :
  0 ≤ m ≤ 11 → MakeDay y m d = DayFromYear y + daysBeforeMonth m (leapYear y) + d - 1.
Proof.
  intros Hm. unfold MakeDay. cbv zeta.
  by rewrite (Z.div_small m 12), (Z.mod_small m 12), Z.add_0_r by lia.
Qed.

Lemma yearSearch_spec fuel y d :
  DayFromYear y ≤ d → d < DayFromYear (y + Z.of_nat fuel) →
  DayFromYear (yearSearch fuel y d) ≤ d < DayFromYear (yearSearch fuel y d + 1).
Proof.
  revert y. induction fuel as [|fuel IH]; intros y Hlo Hhi.
  - rewrite Z.add_0_r in Hhi. lia.
  - simpl. destruct (Z.leb_spec (DayFromYear (y + 1)) d) as [Hle | Hgt]; [| lia].
    apply IH; [done |].
    by replace (y + 1 + Z.of_nat fuel) with (y + Z.of_nat (S fuel)) by lia.
Qed.

(** [YearFromTime] meets its definition: the year that holds the day of [t]. *)
Lemma YearFromTime_spec t :
  DayFromYear (YearFromTime t) ≤ Day t < DayFromYear (YearFromTime t + 1).
Proof.
  unfold YearFromTime. cbv zeta. generalize (Day t). intros d.
  apply yearSearch_spec.
  - unfold DayFromYear. destruct (Z.ltb_spec d 0); Z.div_mod_to_equations; lia.
  - rewrite Z2Nat.id by (Z.div_mod_to_equations; lia).
    unfold DayFromYear. destruct (Z.ltb_spec d 0); Z.div_mod_to_equations; lia.
Qed.

Lemma DayFromYear_succ y : DayFromYear (y + 1) = DayFromYear y + DaysInYear y.
Proof.
  unfold DaysInYear, leapYear, DayFromYear.
  repeat match goal with
         | |- context [?a =? ?b] => destruct (Z.eqb_spec a b)
         end; simpl; Z.div_mod_to_equations; lia.
Qed.

Lemma DayFromYear_le y1 y2 : y1 ≤ y2 → DayFromYear y1 ≤ DayFromYear y2.
Proof. intros H. unfold DayFromYear. Z.div_mod_to_equations. lia. Qed.

Lemma YearFromTime_unique t y :
  DayFromYear y ≤ Day t < DayFromYear (y + 1) → YearFromTime t = y.
Proof.
  intros Hy. pose proof (YearFromTime_spec t) as Ht.
  destruct (Z.lt_trichotomy (YearFromTime t) y) as [Hlt | [-> | Hgt]]; [| done |].
  - pose proof (DayFromYear_le (YearFromTime t + 1) y ltac:(lia)). lia.
  - pose proof (DayFromYear_le (y + 1) (YearFromTime t) ltac:(lia)). lia.
Qed.

Lemma Day_MakeDate d : Day (MakeDate d 0) = d.
Proof. unfold Day, MakeDate. rewrite Z.add_0_r. by apply Z.div_mul. Qed.

Lemma month_cases m :
  1 ≤ m ≤ 12 →
  m = 1 ∨ m = 2 ∨ m = 3 ∨ m = 4 ∨ m = 5 ∨ m = 6 ∨ m = 7 ∨ m = 8 ∨ m = 9 ∨ m = 10
  ∨ m = 11 ∨ m = 12.
Proof. lia. Qed.

Lemma validDate_bounds y m d :
  validDate y m d = true → 1 ≤ m ≤ 12 ∧ 1 ≤ d ≤ DaysInMonth y (m - 1).
Proof.
  unfold validDate. intros H.
  repeat (apply andb_true_iff in H as [H ?]).
  repeat match goal with H : (_ <=? _) = true |- _ => apply Z.leb_le in H end. lia.
Qed.

Ltac month_by_month Hm :=
  apply month_cases in Hm;
  repeat (destruct Hm as [-> | Hm]); try subst.

(** Evaluate the month tables at the concrete months of a case analysis. *)
Ltac compute_days :=
  repeat match goal with
         | |- context [if ?c =? ?k then _ else _] =>
             let v := eval vm_compute in (c =? k) in change (c =? k) with v; cbv iota
         | H : context [if ?c =? ?k then _ else _] |- _ =>
             let v := eval vm_compute in (c =? k) in change (c =? k) with v in H; cbv iota in H
         | |- context [daysBeforeMonth ?a ?l] =>
             let v := eval vm_compute in (daysBeforeMonth a l) in
             change (daysBeforeMonth a l) with v
         | H : context [daysBeforeMonth ?a ?l] |- _ =>
             let v := eval vm_compute in (daysBeforeMonth a l) in
             change (daysBeforeMonth a l) with v in H
         end.

(** A calendar date is read back from its day number. *)
Lemma date_of_MakeDay y m d :
  validDate y m d = true →
  let t := MakeDate (MakeDay y (m - 1) d) 0 in
  YearFromTime t = y ∧ MonthFromTime t = m - 1 ∧ DateFromTime t = d
  ∧ TimeWithinDay t = 0.
Proof.
  intros Hv. cbv zeta. apply validDate_bounds in Hv as [Hm Hd].
  assert (Hday : Day (MakeDate (MakeDay y (m - 1) d) 0)
                 = DayFromYear y + daysBeforeMonth (m - 1) (leapYear y) + d - 1).
  { rewrite Day_MakeDate. apply MakeDay_small. lia. }
  assert (Hdoy : 0 ≤ daysBeforeMonth (m - 1) (leapYear y) + d - 1 < DaysInYear y
                 ∧ monthOfDay (daysBeforeMonth (m - 1) (leapYear y) + d - 1) (leapYear y)
                   = m - 1).
  { unfold DaysInYear. unfold DaysInMonth in Hd.
    month_by_month Hm; destruct (leapYear y); compute_days;
      (split; [lia |]); unfold monthOfDay; cbv zeta iota;
      repeat match goal with
             | |- context [?a <? ?b] => destruct (Z.ltb_spec a b); try lia
             end. }
  destruct Hdoy as [Hdoy Hmonth].
  assert (Hyear : YearFromTime (MakeDate (MakeDay y (m - 1) d) 0) = y).
  { apply YearFromTime_unique. rewrite Hday, DayFromYear_succ. lia. }
  assert (Hwithin : DayWithinYear (MakeDate (MakeDay y (m - 1) d) 0)
                    = daysBeforeMonth (m - 1) (leapYear y) + d - 1).
  { unfold DayWithinYear. rewrite Hyear, Hday. lia. }
  assert (Hmon : MonthFromTime (MakeDate (MakeDay y (m - 1) d) 0) = m - 1).
  { unfold MonthFromTime, InLeapYear. by rewrite Hwithin, Hyear. }
  split; [done |]. split; [done |]. split.
  - unfold DateFromTime, InLeapYear. rewrite Hmon, Hwithin, Hyear. lia.
  - unfold TimeWithinDay, MakeDate. rewrite Z.add_0_r. by apply Z.mod_mul.
Qed.

(** The day number after a calendar date is the day number of the next
    calendar date. *)
Lemma MakeDay_nextDay y m d :
  validDate y m d = true →
  ∀ y' m' d', nextDay y m d = (y', m', d') →
  validDate y' m' d' = true ∧ MakeDay y' (m' - 1) d' = MakeDay y (m - 1) d + 1.
Proof.
  intros Hv y' m' d' Hn. apply validDate_bounds in Hv as [Hm Hd].
  unfold nextDay in Hn.
  destruct (Z.ltb_spec d (DaysInMonth y (m - 1))) as [Hlt | Hge].
  - injection Hn as <- <- <-. split.
    + unfold validDate. repeat (apply andb_true_iff; split); apply Z.leb_le; lia.
    + unfold MakeDay. lia.
  - assert (d = DaysInMonth y (m - 1)) as Hd' by lia.
    destruct (Z.ltb_spec m 12) as [Hm12 | Hm12]; injection Hn as <- <- <-.
    + split.
      * unfold validDate. repeat (apply andb_true_iff; split); apply Z.leb_le; try lia.
        assert (1 ≤ m + 1 ≤ 12) as Hm' by lia. clear Hd Hd' Hge.
        replace (m + 1 - 1) with m by lia.
        unfold DaysInMonth. assert (1 ≤ m ≤ 11) as Hmm by lia. clear Hm Hm' Hm12.
        assert (m = 1 ∨ m = 2 ∨ m = 3 ∨ m = 4 ∨ m = 5 ∨ m = 6 ∨ m = 7 ∨ m = 8 ∨ m = 9
                ∨ m = 10 ∨ m = 11) as Hc by lia.
        repeat (destruct Hc as [-> | Hc]); try subst; destruct (leapYear y);
          compute_days; lia.
      * rewrite !MakeDay_small by lia. subst d. unfold DaysInMonth.
        destruct (Z.eqb_spec (m - 1) 11); [lia |].
        replace (m + 1 - 1) with m by lia. replace (m - 1 + 1) with m by lia. lia.
    + assert (m = 12) as -> by lia. split; [by vm_compute |].
      rewrite !MakeDay_small by lia. subst d.
      rewrite DayFromYear_succ. unfold DaysInYear, DaysInMonth.
      destruct (leapYear y); compute_days; lia.
Qed.


(** Setting the day of the month of [t] to its successor lands on the next
    day number, in every month and year. *)
Lemma MakeDay_next t :
  MakeDay (YearFromTime t) (MonthFromTime t) (DateFromTime t + 1) = Day t + 1.
Proof.
  rewrite MakeDay_small by apply monthOfDay_range.
  unfold DateFromTime, DayWithinYear, InLeapYear. lia.
Qed.

Lemma MakeDay_succ y m d : MakeDay y m (d + 1) = MakeDay y m d + 1.
Proof. unfold MakeDay. lia. Qed.

(** [d.setDate(d.getDate() + 1)] moves a valid date 24 hours on, where the
    zone's offset is stable. *)
Lemma setDate_getDate_next tz t :
  offsetStable tz t →
  setDate tz (Some t) ((λ n, n + 1) <$> getDate tz (Some t)) = TimeClip (t + msPerDay).
Proof.
  intros Hs. unfold setDate, getDate. simpl. rewrite MakeDay_next.
  f_equal. unfold UTC.
  assert (E : MakeDate (Day (LocalTime tz t) + 1) (TimeWithinDay (LocalTime tz t))
              = LocalTime tz t + msPerDay).
  { unfold MakeDate, Day, TimeWithinDay.
    pose proof (Z.div_mod (LocalTime tz t) msPerDay). unfold msPerDay in *. lia. }
  rewrite E, Hs. unfold LocalTime. lia.
Qed.

Lemma fixed_offset_stable tz off t : (∀ u isUTC, tz u isUTC = off) → offsetStable tz t.
Proof. intros H. unfold offsetStable. by rewrite !H. Qed.

Lemma digitValue_range c : Regex.isDigit c = true → 0 ≤ digitValue c ≤ 9.
Proof.
  unfold Regex.isDigit, digitValue. intros [H1 H2]%andb_true_iff.
  apply N.leb_le in H1. apply N.leb_le in H2. lia.
Qed.

Lemma parseDateOnly_year s y m d :
  parseDateOnly s = Some (y, m, d) → 0 ≤ y ≤ 9999 ∧ s ≠ [].
Proof.
  unfold parseDateOnly.
  do 11 (destruct s as [|? s]; try done).
  destruct (forallb _ _) eqn:F; [| done]. simpl.
  destruct (_ && _); [| done]. intros [= <- _ _].
  simpl in F. repeat (apply andb_true_iff in F as [?%digitValue_range F]).
  unfold decimalValue. simpl. split; [lia | done].
Qed.

Lemma DayFromYear_range y : 0 ≤ y ≤ 9999 → -719528 ≤ DayFromYear y ≤ 2932532.
Proof. intros H. unfold DayFromYear. Z.div_mod_to_equations. lia. Qed.

Lemma daysBeforeMonth_range m l : 0 ≤ daysBeforeMonth m l ≤ 335.
Proof. unfold daysBeforeMonth. repeat case_match; lia. Qed.

Lemma validDate_range y m d :
  validDate y m d = true → 1 ≤ m ≤ 12 ∧ 1 ≤ d ≤ 31.
Proof.
  intros [Hm Hd]%validDate_bounds. split; [lia |].
  assert (DaysInMonth y (m - 1) ≤ 31); [| lia].
  unfold DaysInMonth, daysBeforeMonth. repeat case_match; lia.
Qed.

Lemma TimeClip_date y m d k :
  0 ≤ y ≤ 9999 → 1 ≤ m ≤ 12 → 1 ≤ d ≤ 31 → 0 ≤ k ≤ 1 →
  TimeClip (MakeDate (MakeDay y (m - 1) d) 0 + k * msPerDay)
  = Some (MakeDate (MakeDay y (m - 1) d) 0 + k * msPerDay).
Proof.
  intros Hy Hm Hd Hk. unfold TimeClip, MakeDate.
  rewrite MakeDay_small by lia.
  pose proof (DayFromYear_range y Hy) as Hr.
  pose proof (daysBeforeMonth_range (m - 1) (leapYear y)).
  unfold msPerDay.
  match goal with
  | |- (if ?a <? ?b then _ else _) = _ => destruct (Z.ltb_spec a b); [lia | done]
  end.
Qed.

(** Lines 149-150 on a calendar date in the form YYYY-MM-DD, in a zone
    whose offset is stable there: the Date of the day after. *)
Lemma expirationDate_next env s y m d :
  parseDateOnly s = Some (y, m, d) → validDate y m d = true →
  offsetStable (tz env) (MakeDate (MakeDay y (m - 1) d) 0) →
  expirationDate env s = Some (MakeDate (MakeDay y (m - 1) (d + 1)) 0).
Proof.
  intros Hp Hv Hs. unfold expirationDate, newDate, parse. rewrite Hp, Hv.
  destruct (parseDateOnly_year _ _ _ _ Hp) as [Hy _].
  destruct (validDate_range _ _ _ Hv) as [Hm Hd].
  pose proof (TimeClip_date y m d 0 Hy Hm Hd ltac:(lia)) as E0.
  pose proof (TimeClip_date y m d 1 Hy Hm Hd ltac:(lia)) as E1.
  rewrite Z.mul_0_l, Z.add_0_r in E0. rewrite Z.mul_1_l in E1.
  cbn [mbind option_bind]. rewrite E0. cbn [mbind option_bind].
  rewrite setDate_getDate_next by done. rewrite E1. f_equal.
  rewrite MakeDay_succ. unfold MakeDate. lia.
Qed.

(** Lines 149-150 on a string that [Date.parse] reads as the instant
    [t0], in a zone whose offset is stable there: the Date 24 hours later. *)
Lemma expirationDate_stable env s t0 :
  newDate (dateParseImpl env) s = Some t0 →
  offsetStable (tz env) t0 →
  expirationDate env s = TimeClip (t0 + msPerDay).
Proof.
  intros Hn Hs. unfold expirationDate. rewrite Hn. by apply setDate_getDate_next.
Qed.

Lemma newDate_range impl s t0 : newDate impl s = Some t0 → Z.abs t0 ≤ 8640000000000000.
Proof.
  unfold newDate. destruct (parse impl s) as [t |]; [| done]. simpl.
  unfold TimeClip. destruct (Z.ltb_spec 8640000000000000 (Z.abs t)); [done |].
  intros [= <-]. lia.
Qed.

(** C6, as the code has it. When the request's non-empty [expiryDate] is
    read as a date by [Date.parse], in whatever form, and the host's zone
    offset at that instant is also its offset for the local time one day
    later (as in every zone without clock changes, UTC among them), the
    header field of the manifest holds the supplied date plus one calendar
    day: the Date 24 hours later (an Invalid Date if that is past the last
    day a Date can hold), on the next day number at the same time of day.
    For a calendar date in the form YYYY-MM-DD this is UTC midnight of the
    next day of the calendar. When [expiryDate] is absent or empty, the
    header field keeps the template's value. *)
Theorem header_is_next_day env req disk0 gen :
  generated (generatePass env req disk0) = Some gen →
  (∀ s t0,
     expiryDate req = Some s → s ≠ [] →
     newDate (dateParseImpl env) s = Some t0 →
     offsetStable (tz env) t0 →
     ∃ f rest,
       headerFields (coupon (passJson gen)) = f :: rest
       ∧ value f = VDate (TimeClip (t0 + msPerDay))
       ∧ (t0 + msPerDay ≤ 8640000000000000 →
          value f = VDate (Some (t0 + msPerDay))
          ∧ Day (t0 + msPerDay) = Day t0 + 1
          ∧ TimeWithinDay (t0 + msPerDay) = TimeWithinDay t0))
  ∧ (∀ s y m d,
       expiryDate req = Some s →
       parseDateOnly s = Some (y, m, d) → validDate y m d = true →
       offsetStable (tz env) (MakeDate (MakeDay y (m - 1) d) 0) →
       ∃ f rest t,
         headerFields (coupon (passJson gen)) = f :: rest
         ∧ value f = VDate (Some t)
         ∧ t = MakeDate (MakeDay y (m - 1) d) 0 + msPerDay
         ∧ (YearFromTime t, MonthFromTime t + 1, DateFromTime t) = nextDay y m d
         ∧ TimeWithinDay t = 0)
  ∧ (∀ template,
       readTemplate env = Ok template →
       expiryDate req = None ∨ expiryDate req = Some [] →
       headerFields (coupon (passJson gen)) = headerFields (coupon template)).
Proof.
  intros Hgen.
  apply generatePass_generated in Hgen as (st' & Htry & _).
  apply tryBlock_Ok in Htry as (template & buffer & Ht & _ & _ & _ & Hup & _).
  apply updatePass_Ok in Hup as (_ & _ & _ & _ & _ & _ & _ & Hhead).
  split; [| split].
  - intros s t0 Es Hne Hn Hs.
    rewrite Es in Hhead. destruct s as [|c s]; [done |].
    apply setValue0_Ok in Hhead as (f & rest & _ & ->).
    pose proof (newDate_range _ _ _ Hn) as Hr.
    eexists _, _. split; [done |]. cbn [value].
    rewrite (expirationDate_stable env (c :: s) t0 Hn Hs).
    split; [done |]. intros Hmax. split; [| split].
    + f_equal. unfold TimeClip.
      destruct (Z.ltb_spec 8640000000000000 (Z.abs (t0 + msPerDay))); [| done].
      unfold msPerDay in *. lia.
    + unfold Day, msPerDay. Z.div_mod_to_equations. lia.
    + unfold TimeWithinDay, msPerDay. Z.div_mod_to_equations. lia.
  - intros s y m d Es Hp Hv Hs.
    destruct (parseDateOnly_year _ _ _ _ Hp) as [_ Hne].
    rewrite Es in Hhead. destruct s as [|c s]; [done |].
    apply setValue0_Ok in Hhead as (f & rest & _ & ->).
    destruct (nextDay y m d) as [[y' m'] d'] eqn:Hn.
    destruct (MakeDay_nextDay y m d Hv y' m' d' Hn) as [Hv' Hday].
    destruct (date_of_MakeDay y' m' d' Hv') as (Hy & Hm & Hd & Hw).
    assert (E : MakeDate (MakeDay y (m - 1) (d + 1)) 0 = MakeDate (MakeDay y' (m' - 1) d') 0).
    { rewrite MakeDay_succ. by rewrite Hday. }
    eexists _, _, _. split; [done |]. split.
    { simpl. by rewrite (expirationDate_next env (c :: s) y m d). }
    rewrite E, Hy, Hm, Hd, Hw. split; [| split; [f_equal; f_equal; lia | done]].
    rewrite Hday. unfold MakeDate. lia.
  - intros template' Ht' [E | E]; rewrite E in Hhead; congruence.
Qed.

End Dates.

(** ** Serial numbers *)

Section Serial.

Lemma js_inj a c : js a = js c → a = c.
Proof.
  unfold js. revert c. induction a as [|x a IH]; intros [|y c]; simpl; try done.
  intros [= Hx Ha]. f_equal; [| by apply IH].
  by rewrite <- (Ascii.ascii_N_embedding x), <- (Ascii.ascii_N_embedding y), Hx.
Qed.

(** Different clock readings give different serial numbers. *)
Lemma toString_inj a c : toString a = toString c → a = c.
Proof.
  unfold toString. intros H%js_inj. apply DecimalZ.to_int_inj.
  assert (E : ∀ d, NilEmpty.int_of_string (NilEmpty.string_of_int d) = Some d)
    by apply NilEmpty.isi.
  pose proof (E (Z.to_int a)) as Ea. rewrite H, E in Ea. congruence.
Qed.

(** The serial number is the clock reading and nothing else: two passes
    have the same serial number exactly when their requests read the same
    millisecond. *)
Lemma serial_of_clock env1 env2 req1 req2 d1 d2 g1 g2 :
  generated (generatePass env1 req1 d1) = Some g1 →
  generated (generatePass env2 req2 d2) = Some g2 →
  (serialNumber (passJson g1) = serialNumber (passJson g2) ↔ now env1 = now env2)
  ∧ (passPath g1 = passPath g2 ↔ now env1 = now env2).
Proof.
  intros (s1 & H1 & _)%generatePass_generated (s2 & H2 & _)%generatePass_generated.
  apply tryBlock_Ok in H1 as (t1 & b1 & _ & Hid1 & _ & Hp1 & Hu1 & _).
  apply tryBlock_Ok in H2 as (t2 & b2 & _ & Hid2 & _ & Hp2 & Hu2 & _).
  apply updatePass_Ok in Hu1 as (-> & _). apply updatePass_Ok in Hu2 as (-> & _).
  rewrite Hp1, Hp2, Hid1, Hid2. split; split.
  - apply toString_inj.
  - by intros ->.
  - unfold path_join. intros H. do 2 apply app_inv_head in H.
    apply app_inv_tail in H. by apply toString_inj.
  - by intros ->.
Qed.

(** C3, at a failing input. Two different requests that read the clock in
    the same millisecond are both served, with one and the same serial
    number; the archive of the second replaces the archive of the first
    under the one path they share. *)
Theorem same_millisecond_same_serial :
  let out1 := generatePass sampleEnv requestA ∅ in
  let out2 := generatePass sampleEnv requestB (disk out1) in
  ∃ g1 g2,
    generated out1 = Some g1 ∧ generated out2 = Some g2
    ∧ passJson g1 ≠ passJson g2
    ∧ serialNumber (passJson g1) = js "1736467200000"
    ∧ serialNumber (passJson g2) = js "1736467200000"
    ∧ response out1 = Success (js "https://example.com/passes/1736467200000.pkpass")
                              (js "1736467200000")
    ∧ response out2 = response out1
    ∧ disk out1 !! js "temp/1736467200000.pkpass" = Some (js "1736467200000:20%")
    ∧ disk out2 !! js "temp/1736467200000.pkpass" = Some (js "1736467200000:50%").
Proof.
  cbv zeta. eexists _, _.
  split; [vm_compute; reflexivity |]. split; [vm_compute; reflexivity |].
  split; [by vm_compute |]. by vm_compute.
Qed.

End Serial.

(** ** Scratch files *)

Section Scratch.

Lemma keepsList_bind {A B} (m : M A) (k : A → M B) :
  keepsList m → (∀ a, keepsList (k a)) → keepsList (bind m k).
Proof.
  intros Hm Hk st res st'. unfold bind.
  destruct (m st) as [[a | e] st1] eqn:E.
  - intros H. rewrite (Hk _ _ _ _ H). by apply (Hm _ _ _ E).
  - intros [= <- <-]. by apply (Hm _ _ _ E).
Qed.

Lemma keepsList_lift {A} (x : result A) : keepsList (lift x).
Proof. by intros st res st' [= <- <-]. Qed.

Lemma keepsList_ret {A} (a : A) : keepsList (ret a).
Proof. by intros st res st' [= <- <-]. Qed.

Lemma keepsList_readFileSync path : keepsList (readFileSync path).
Proof.
  intros st res st'. unfold readFileSync.
  destruct (files st !! path); by intros [= <- <-].
Qed.

Lemma keepsList_writeFile env path content : keepsList (writeFile env path content).
Proof.
  intros st res st'. unfold writeFile.
  destruct (writeArchive env path); by intros [= <- <-].
Qed.

Lemma keepsList_getCleanup : keepsList getCleanup.
Proof. by intros st res st' [= <- <-]. Qed.

Lemma keepsList_cleanupFiles env l : keepsList (cleanupFiles env l).
Proof. intros st res st'. apply cleanupFiles_cleanup. Qed.

Lemma bind_Throw {A B} (m : M A) (k : A → M B) st e st' :
  bind m k st = (Throw e, st') →
  m st = (Throw e, st') ∨ ∃ a st1, m st = (Ok a, st1) ∧ k a st1 = (Throw e, st').
Proof.
  unfold bind. destruct (m st) as [[a | e1] st1]; [eauto |].
  intros [= <- <-]. by left.
Qed.

(** When the [try] block throws after the derivation of the three tiers
    has completed, the three scratch paths are registered for cleanup. *)
Lemma tryBlock_Throw_registered env req disk0 image imgs st1 e st :
  stripImage req = Some image → image ≠ [] →
  processBase64Image env image (orDefault (reqBackgroundColor req))
    {| files := disk0; filesToCleanup := [] |} = (Ok imgs, st1) →
  tryBlock env req {| files := disk0; filesToCleanup := [] |} = (Throw e, st) →
  filesToCleanup st = scratchPaths.
Proof.
  intros Hi Hne Hproc. unfold tryBlock. rewrite Hi.
  destruct image as [|c image]; [done |]. intros H.
  apply bind_Throw in H as [H | (a & s1 & H1 & H)].
  - rewrite (bind_run _ _ _ _ _ Hproc) in H. done.
  - rewrite (bind_run _ _ _ _ _ Hproc) in H1.
    apply processBase64Image_Ok in Hproc as (-> & _ & _ & _ & _ & Hfc).
    injection H1 as <- <-. cbn beta zeta in H.
    assert (K : keepsList (λ st0,
      bind (lift (readTemplate env)) (λ template,
        bind (lift (updatePass env req (toString (now env)) template)) (λ pj,
          bind (lift (readIcons env)) (λ icons,
            bind (bind (readFileSync (tierPath Base)) (λ f1,
                    bind (readFileSync (tierPath Tier2x)) (λ f2,
                      bind (readFileSync (tierPath Tier3x)) (λ f3,
                        ret [(js "strip.png", f1); (js "strip@2x.png", f2);
                             (js "strip@3x.png", f3)]))))
              (λ strips,
                 bind (lift (signPass env pj
                         ([(js "icon.png", icons.1.1); (js "icon@2x.png", icons.1.2);
                           (js "icon@3x.png", icons.2)] ++ strips)))
                   (λ buffer,
                      bind (writeFile env
                              (path_join (js "temp") (toString (now env) ++ js ".pkpass"))
                              buffer)
                        (λ _, bind getCleanup (λ toClean,
                           bind (cleanupFiles env toClean) (λ _,
                             ret {| passJson := pj;
                                    modelFiles :=
                                      [(js "icon.png", icons.1.1); (js "icon@2x.png", icons.1.2);
                                       (js "icon@3x.png", icons.2)] ++ strips;
                                    uniqueId := toString (now env);
                                    downloadUrl := downloadUrlOf env (toString (now env));
                                    passPath := path_join (js "temp")
                                                  (toString (now env) ++ js ".pkpass") |}))))))))
        st0)).
    { repeat first
        [ apply keepsList_bind; [| intros ?]
        | apply keepsList_lift | apply keepsList_ret | apply keepsList_readFileSync
        | apply keepsList_writeFile | apply keepsList_getCleanup
        | apply keepsList_cleanupFiles ]. }
    rewrite (K _ _ _ H). simpl. by rewrite Hfc.
Qed.

(** Once the three tiers have been derived, every run of the handler that
    answers the caller, with success or with failure, has deleted the three
    scratch files before it answers. *)
Lemma scratch_released env req disk0 image imgs st1 :
  stripImage req = Some image → image ≠ [] →
  processBase64Image env image (orDefault (reqBackgroundColor req))
    {| files := disk0; filesToCleanup := [] |} = (Ok imgs, st1) →
  (∀ e, response (generatePass env req disk0) ≠ NoResponse e) →
  ∀ t, disk (generatePass env req disk0) !! tierPath t = None.
Proof.
  intros Hi Hne Hproc Hresp t. revert Hresp. unfold generatePass.
  destruct (tryBlock env req _) as [[gen | e] st] eqn:Htry.
  - intros _. cbn [disk].
    apply tryBlock_Ok in Htry as (_ & _ & _ & _ & _ & _ & _ & _ & _ & Hgone).
    apply Hgone. rewrite Hi. by destruct image.
  - rewrite (tryBlock_Throw_registered _ _ _ _ _ _ _ _ Hi Hne Hproc Htry).
    destruct (cleanupFiles env scratchPaths st) as [[[] | e'] st'] eqn:Hcl.
    + intros _. cbn [disk]. apply (cleanupFiles_removed _ _ _ _ _ Hcl).
      unfold scratchPaths. destruct t; set_solver.
    + intros Hresp. by destruct (Hresp e').
Qed.

(** C4, at a failing input. The image library writes the base tier and
    fails on the 2x tier: the request is answered with the failure, and the
    base tier written on the way is still in the scratch directory, since
    the paths are registered for cleanup only after all three tiers exist. *)
Theorem scratch_left_after_partial_derivation :
  let out := generatePass tier2FailsEnv (requestWith None None (Some (js "IMG"))) ∅ in
  response out = Failure (js "Image processing failed: unable to write file")
  ∧ disk out !! js "/tmp/strip.png" = Some (js "strip.pngIMG")
  ∧ disk out !! tierPath Base ≠ None.
Proof. cbv zeta. split; [by vm_compute |]. split; by vm_compute. Qed.

End Scratch.

(** ** The properties at concrete inputs *)

Section Instances.
Import Regex RegexFacts.



Lemma serial_url_archive_agree_witness :
  ∃ gen,
    generated (generatePass sampleEnv requestA ∅) = Some gen
    ∧ serialNumber (passJson gen) = js "1736467200000"
    ∧ message (barcode (passJson gen)) = js "https://example.com/passes/1736467200000.pkpass"
    ∧ message <$> head (barcodes (passJson gen))
      = Some (js "https://example.com/passes/1736467200000.pkpass")
    ∧ passPath gen = js "temp/1736467200000.pkpass"
    ∧ is_Some (disk (generatePass sampleEnv requestA ∅) !! js "temp/1736467200000.pkpass").
Proof.
  destruct (generated (generatePass sampleEnv requestA ∅)) as [gen |] eqn:Hgen;
    [| by vm_compute in Hgen].
  exists gen. split; [done |].
  destruct (serial_url_archive_agree sampleEnv requestA ∅ gen Hgen)
    as (H1 & H2 & H3 & H4 & H5 & _).
  repeat split; [exact H1 | exact H2 | exact H3 | exact H4 | exact H5].
Defined.

Lemma primary_field_verbatim_witness :
  ∃ gen f rest,
    generated (generatePass sampleEnv requestA ∅) = Some gen
    ∧ primaryFields (coupon (passJson gen)) = f :: rest
    ∧ value f = VString (js "20%").
Proof.
  destruct (generated (generatePass sampleEnv requestA ∅)) as [gen |] eqn:Hgen;
    [| by vm_compute in Hgen].
  destruct (primary_field_verbatim sampleEnv requestA ∅ gen Hgen) as (f & rest & Hp & _ & Hv).
  exists gen, f, rest. split; [done |]. split; [done |]. by apply Hv.
Defined.

(** C6 fails as stated. On a host in US Eastern time a request that
    provides [expiryDate: "2025-03-09"], the day the clocks go forward,
    gets the header 2025-03-09T23:00:00.000Z: 23 hours after the supplied
    date, on the 9th in UTC and in local time alike, and not on the 10th,
    the supplied date plus one calendar day. The date is parsed as UTC
    midnight and moved on in local time, and the zone's offset changes in
    between. *)
Lemma header_same_day_at_clock_change :
  let out := generatePass easternEnv (requestWith (Some (js "2025-03-09")) None None) ∅ in
  ∃ gen t,
    generated out = Some gen
    ∧ JSDate.parseDateOnly (js "2025-03-09") = Some (2025, 3, 9)
    ∧ JSDate.nextDay 2025 3 9 = (2025, 3, 10)
    ∧ value <$> head (headerFields (coupon (passJson gen))) = Some (VDate (Some t))
    ∧ JSDate.toISOString t = js "2025-03-09T23:00:00.000Z"
    ∧ (JSDate.YearFromTime t, JSDate.MonthFromTime t + 1, JSDate.DateFromTime t)
      = (2025, 3, 9)
    ∧ JSDate.getDate easternTime2025 (Some t) = Some 9
    ∧ t ≠ JSDate.MakeDate (JSDate.MakeDay 2025 2 9) 0 + JSDate.msPerDay
    ∧ ¬ JSDate.offsetStable easternTime2025 (JSDate.MakeDate (JSDate.MakeDay 2025 2 9) 0).
Proof.
  cbv zeta. eexists _, _. split; [vm_compute; reflexivity |].
  split; [reflexivity |]. split; [by vm_compute |].
  split; [vm_compute; reflexivity |]. by vm_compute.
Qed.

Lemma header_is_next_day_witness :
  ∃ gen,
    generated (generatePass sampleEnv (requestWith (Some (js "2025-01-10")) None None) ∅)
    = Some gen
    ∧ headerJSON (passJson gen) = Some (Some (js "2025-01-11T00:00:00.000Z")).
Proof.
  destruct (generated (generatePass sampleEnv
              (requestWith (Some (js "2025-01-10")) None None) ∅)) as [gen |] eqn:Hgen;
    [| by vm_compute in Hgen].
  exists gen. split; [done |].
  destruct (header_is_next_day sampleEnv _ ∅ gen Hgen) as [Hdate _].
  destruct (Hdate (js "2025-01-10") 1736467200000 eq_refl ltac:(done) eq_refl eq_refl)
    as (f & rest & Hh & Hv & _).
  unfold headerJSON. rewrite Hh. destruct f as [v others]. simpl in Hv. rewrite Hv.
  reflexivity.
Defined.

(** C5 fails as stated. The string "rgb(256,0,0)" is of the form
    rgb(r,g,b) with a component outside [0,255], and a string that is not
    of that form may contain such a text: both resolve to the integers
    found, not to the default colour. *)
Lemma out_of_range_colour_is_not_default :
  js "rgb(256,0,0)" = matchText (js "256") [] (js "0") [] (js "0")
  ∧ decimalValue (js "256") = 256
  ∧ resolveColor (Some (js "rgb(256,0,0)")) = Some (RGB (Finite 256) (Finite 0) (Finite 0))
  ∧ resolveColor (Some (js "rgb(256,0,0)")) ≠ Some (RGB (Finite 41) (Finite 128) (Finite 185))
  ∧ resolveColor (Some (js "not-a-color rgb(1,2,3)"))
    = Some (RGB (Finite 1) (Finite 2) (Finite 3)).
Proof. repeat split; by vm_compute. Qed.

Lemma resolveColor_spec_witness :
  resolveColor (Some (js "rgb(10,20,30)")) = Some (RGB (Finite 10) (Finite 20) (Finite 30))
  ∧ resolveColor (Some (js "not-a-color")) = Some (RGB (Finite 41) (Finite 128) (Finite 185))
  ∧ resolveColor (Some (js "rgb(256,0,0)"))
    = Some (RGB (toDouble 256) (toDouble 0) (toDouble 0)).
Proof.
  destruct resolveColor_spec as (Hany & _ & _ & Hmatch & _ & Hnone & _).
  split; [| split].
  - apply (Hmatch (js "10") [] (js "20") [] (js "30"));
      try (split; [done | repeat constructor]); try constructor; by vm_compute.
  - apply Hnone. by apply matchRGB_None.
  - apply (Hany (js "rgb(256,0,0)") [] (js "256") (js "0") (js "0")).
    + exists [], [], []. split; [reflexivity |].
      repeat split; try done; repeat constructor.
    + intros p a1 a2 a3 _. simpl. lia.
Defined.

Lemma parseRGBColor_unanchored_unclamped_witness :
  parseRGBColor 1 (js "tint = rgb(999, 0, 0);")
  = Some (RGB (Finite 999) (Finite 0) (Finite 0)).
Proof.
  destruct parseRGBColor_unanchored_unclamped as (_ & Hcontains & _).
  apply (Hcontains 0%nat (js "tint = ") (js "999") (js " ") (js "0") (js " ") (js "0") (js ";"));
    try (split; [done | repeat constructor]); try (repeat constructor).
  compute_done.
Defined.

Lemma empty_string_is_absent_witness :
  generatePass sampleEnv (requestWith (Some []) None None) ∅
  = generatePass sampleEnv (requestWith None None None) ∅.
Proof.
  exact (proj1 (proj2 (empty_string_is_absent sampleEnv None (Some (js "Gold"))
                         (Some (js "20%")) None None ∅))).
Defined.

End Instances.

(** ** The built-ins of the embedding on known values *)

Section Checks.

Example toISOString_epoch : JSDate.toISOString 0 = js "1970-01-01T00:00:00.000Z".
Proof. reflexivity. Qed.

Example toISOString_leap_day : JSDate.toISOString 951782400000 = js "2000-02-29T00:00:00.000Z".
Proof. reflexivity. Qed.

Example toISOString_before_epoch : JSDate.toISOString (-1) = js "1969-12-31T23:59:59.999Z".
Proof. reflexivity. Qed.

Example toISOString_last_day : JSDate.toISOString 8640000000000000 = js "+275760-09-13T00:00:00.000Z".
Proof. by vm_compute. Qed.

Example newDate_date_only :
  JSDate.newDate (λ _, None) (js "2025-01-10") = Some 1736467200000.
Proof. reflexivity. Qed.

Example month_end_carries :
  JSDate.toJSON (JSDate.setDate (λ _ _, 0) (JSDate.newDate (λ _, None) (js "2024-02-29"))
                   ((λ n, n + 1) <$> JSDate.getDate (λ _ _, 0)
                                       (JSDate.newDate (λ _, None) (js "2024-02-29"))))
  = Some (js "2024-03-01T00:00:00.000Z").
Proof. by vm_compute. Qed.

Example toString_clock : toString 1736467200000 = js "1736467200000".
Proof. reflexivity. Qed.

Example toString_zero : toString 0 = js "0".
Proof. reflexivity. Qed.

Example toDouble_rounds : toDouble (2 ^ 53 + 1) = Finite (2 ^ 53).
Proof. reflexivity. Qed.

Example toDouble_overflows : toDouble (10 ^ 309) = Infinity.
Proof. by vm_compute. Qed.

Example parse_spaces_after_commas :
  resolveColor (Some (js "rgb(41, 128, 185)")) = Some defaultColor.
Proof. reflexivity. Qed.

Example parse_no_space_before_comma :
  resolveColor (Some (js "rgb(1 ,2,3)")) = Some defaultColor.
Proof. reflexivity. Qed.

Example parse_leftmost :
  resolveColor (Some (js "rgb(1,2,3) rgb(4,5,6)")) = Some (RGB (Finite 1) (Finite 2) (Finite 3)).
Proof. reflexivity. Qed.

(** Scenario B of the specification: the three tiers are derived, bundled
    and deleted again. *)
Example scenario_B :
  let out := generatePass sampleEnv
               (requestWith (Some (js "2025-06-01")) (Some (js "rgb(10,20,30)"))
                  (Some (js "IMG"))) ∅ in
  (fst <$> (default [] (modelFiles <$> generated out)))
  = [js "icon.png"; js "icon@2x.png"; js "icon@3x.png";
     js "strip.png"; js "strip@2x.png"; js "strip@3x.png"]
  ∧ (fst <$> map_to_list (disk out)) = [js "temp/1736467200000.pkpass"].
Proof. cbv zeta. split; by vm_compute. Qed.

End Checks.

(** * Further properties of the code *)

(** ** [cleanupFiles] *)

Section CleanupFiles.

Context (env : Env).

(** X1. A cleanup that returns has deleted exactly the listed paths: a
    listed path is gone, every other path holds what it held, and the
    [filesToCleanup] array is as it was. *)
Theorem cleanupFiles_deletes_exactly_listed l st st' :
  cleanupFiles env l st = (Ok (), st') →
  (∀ path, path ∈ l → files st' !! path = None)
  ∧ (∀ path, path ∉ l → files st' !! path = files st !! path)
  ∧ filesToCleanup st' = filesToCleanup st.
Proof.
  intros H. split; [| split].
  - intros path. by apply (cleanupFiles_removed _ _ _ _ _ H).
  - intros path. by apply (cleanupFiles_other _ _ _ _ _ _ H).
  - by apply (cleanupFiles_cleanup _ _ _ _ _ H).
Qed.

(** X2. Paths that do not exist are skipped: when none of the listed files
    is on disk, cleanup returns and changes nothing. [unlinkSync] is never
    reached, so this holds on a file system that would refuse every
    deletion as well. *)
Theorem cleanupFiles_skips_missing l st :
  (∀ path, path ∈ l → files st !! path = None) → cleanupFiles env l st = (Ok (), st).
Proof.
  induction l as [|file l IH]; intros Hl; simpl; [done |].
  rewrite (Hl file) by set_solver. apply IH. intros path ?. apply Hl. set_solver.
Qed.

(** X3. Cleanup stops at the first file it cannot delete: the existing
    files listed before it are deleted, the error of [unlinkSync] is thrown,
    and that file and every path not listed before it stay as they were,
    the files listed after it included. *)
Theorem cleanupFiles_stops_at_failure l1 file l2 st e :
  (∀ path, path ∈ l1 → unlinkSync env path = Ok ()) →
  file ∉ l1 → is_Some (files st !! file) → unlinkSync env file = Throw e →
  ∃ st',
    cleanupFiles env (l1 ++ file :: l2) st = (Throw e, st')
    ∧ (∀ path, path ∈ l1 → files st' !! path = None)
    ∧ (∀ path, path ∉ l1 → files st' !! path = files st !! path).
Proof.
  revert st. induction l1 as [|f l1 IH]; intros st Hok Hni [content Hfile] He.
  - simpl. rewrite Hfile, He. exists st. split; [done |]. split; [| done].
    by intros path ?%elem_of_nil.
  - apply not_elem_of_cons in Hni as [Hne Hni].
    assert (Hok' : ∀ path, path ∈ l1 → unlinkSync env path = Ok ())
      by (intros path ?; apply Hok; set_solver).
    simpl. destruct (files st !! f) eqn:Hf.
    + rewrite (Hok f) by set_solver.
      destruct (IH {| files := delete f (files st); filesToCleanup := filesToCleanup st |}
                  Hok' Hni) as (st' & Hrun & Hgone & Hkept); [| done |].
      { exists content. simpl. by rewrite lookup_delete_ne. }
      exists st'. split; [done |]. split.
      * intros path [-> | Hin]%elem_of_cons; [| by apply Hgone].
        destruct (decide (f ∈ l1)) as [Hin | Hnin]; [by apply Hgone |].
        rewrite (Hkept f Hnin). simpl. apply lookup_delete_eq.
      * intros path [Hne' Hnin]%not_elem_of_cons.
        rewrite (Hkept path Hnin). simpl. by rewrite lookup_delete_ne.
    + destruct (IH st Hok' Hni) as (st' & Hrun & Hgone & Hkept); [by exists content | done |].
      exists st'. split; [done |]. split.
      * intros path [-> | Hin]%elem_of_cons; [| by apply Hgone].
        destruct (decide (f ∈ l1)) as [Hin | Hnin]; [by apply Hgone |].
        by rewrite (Hkept f Hnin).
      * intros path [Hne' Hnin]%not_elem_of_cons. by apply Hkept.
Qed.

(** X4. Cleanup is idempotent: after a cleanup that returned, a second
    cleanup of the same list returns too and changes nothing, whatever
    [unlinkSync] would do. *)
Theorem cleanupFiles_idempotent l st st' :
  cleanupFiles env l st = (Ok (), st') → cleanupFiles env l st' = (Ok (), st').
Proof.
  intros H.
  assert (Hgone : ∀ path, path ∈ l → files st' !! path = None)
    by (intros path; apply (cleanupFiles_removed _ _ _ _ _ H)).
  clear H.
  induction l as [|file l IH]; simpl; [done |].
  rewrite (Hgone file) by set_solver. apply IH. intros path ?. apply Hgone. set_solver.
Qed.

End CleanupFiles.

(** ** [processBase64Image] *)

Section ProcessImage.

Context (env : Env).

Lemma orDefault_idem x : orDefault (Some (orDefault x)) = orDefault x.
Proof. by destruct x as [[|c s] |]. Qed.

Lemma scratch_insert_other (t : tier) (png : blob) (m : gmap jsstring blob) (path : jsstring) :
  path ∉ scratchPaths → <[tierPath t := png]> m !! path = m !! path.
Proof.
  intros Hp. apply lookup_insert_ne. intros <-. apply Hp.
  unfold scratchPaths. destruct t; set_solver.
Qed.

Lemma processBase64Image_Ok_full image bg st imgs st' :
  processBase64Image env image bg st = (Ok imgs, st') →
  imgs = (js "/tmp/strip.png", js "/tmp/strip@2x.png", js "/tmp/strip@3x.png")
  ∧ ∃ c p1 p2 p3,
      resolveColor (Some bg) = Some c
      ∧ sharp env Base image None = Ok p1
      ∧ sharp env Tier2x image (Some c) = Ok p2
      ∧ sharp env Tier3x image (Some c) = Ok p3
      ∧ files st' !! js "/tmp/strip.png" = Some p1
      ∧ files st' !! js "/tmp/strip@2x.png" = Some p2
      ∧ files st' !! js "/tmp/strip@3x.png" = Some p3
      ∧ (∀ path, path ∉ scratchPaths → files st' !! path = files st !! path)
      ∧ filesToCleanup st' = filesToCleanup st.
Proof.
  unfold processBase64Image, tryCatch.
  destruct (bind _ _ st) as [[a | e] st1] eqn:H; [| done].
  intros [= -> ->].
  apply bind_Ok in H as ([] & s1 & H1 & H). apply toFile_Ok in H1 as (p1 & E1 & ->).
  apply bind_Ok in H as (c2 & s2 & H2 & H). apply overlayColor_Ok in H2 as (Ec2 & ->).
  apply bind_Ok in H as ([] & s3 & H3 & H). apply toFile_Ok in H3 as (p2 & E2 & ->).
  apply bind_Ok in H as (c3 & s4 & H4 & H). apply overlayColor_Ok in H4 as (Ec3 & ->).
  apply bind_Ok in H as ([] & s5 & H5 & H). apply toFile_Ok in H5 as (p3 & E3 & ->).
  injection H as <- <-. split; [done |].
  assert (c3 = c2) as -> by congruence.
  exists c2, p1, p2, p3. cbn [files filesToCleanup].
  repeat (split; [done |]).
  change (js "/tmp/strip.png") with (tierPath Base).
  change (js "/tmp/strip@2x.png") with (tierPath Tier2x).
  change (js "/tmp/strip@3x.png") with (tierPath Tier3x).
  split; [| split; [| split; [| split; [| done]]]].
  - rewrite lookup_insert_ne by (by intros ?%tierPath_inj).
    rewrite lookup_insert_ne by (by intros ?%tierPath_inj).
    apply lookup_insert_eq.
  - rewrite lookup_insert_ne by (by intros ?%tierPath_inj). apply lookup_insert_eq.
  - apply lookup_insert_eq.
  - intros path Hp. by rewrite !scratch_insert_other.
Qed.

Lemma processBase64Image_Throw_full image bg st e st' :
  processBase64Image env image bg st = (Throw e, st') →
  (∃ cause, e = js "Image processing failed: " ++ cause)
  ∧ filesToCleanup st' = filesToCleanup st
  ∧ (∀ path, path ∉ scratchPaths → files st' !! path = files st !! path)
  ∧ files st' !! js "/tmp/strip@3x.png" = files st !! js "/tmp/strip@3x.png"
  ∧ (∀ cause, sharp env Base image None = Throw cause →
       e = js "Image processing failed: " ++ cause ∧ files st' = files st).
Proof.
  unfold processBase64Image, tryCatch, bind, toFile, overlayColor, throw, ret.
  change (js "/tmp/strip@3x.png") with (tierPath Tier3x).
  destruct (sharp env Base image None) as [p1 | e1].
  - destruct (resolveColor (Some bg)) as [c |]; simpl.
    + destruct (sharp env Tier2x image (Some c)) as [p2 | e2]; simpl.
      * destruct (sharp env Tier3x image (Some c)) as [p3 | e3]; simpl; [done |].
        intros [= <- <-]. cbn [files filesToCleanup].
        split; [by eexists |]. split; [done |]. split; [| split; [| done]].
        -- intros path Hp. by rewrite !scratch_insert_other.
        -- rewrite lookup_insert_ne by (by intros ?%tierPath_inj).
           by rewrite lookup_insert_ne by (by intros ?%tierPath_inj).
      * intros [= <- <-]. cbn [files filesToCleanup].
        split; [by eexists |]. split; [done |]. split; [| split; [| done]].
        -- intros path Hp. by rewrite !scratch_insert_other.
        -- by rewrite lookup_insert_ne by (by intros ?%tierPath_inj).
    + intros [= <- <-]. cbn [files filesToCleanup].
      split; [by eexists |]. split; [done |]. split; [| split; [| done]].
      * intros path Hp. by rewrite !scratch_insert_other.
      * by rewrite lookup_insert_ne by (by intros ?%tierPath_inj).
  - simpl. intros [= <- <-].
    split; [by eexists |]. split; [done |]. split; [done |]. split; [done |].
    by intros cause [= <-].
Qed.

(** However a derivation ends, it registers nothing for cleanup and leaves
    every path other than the three scratch paths as it was. *)
Lemma processBase64Image_frame image bg st res st' :
  processBase64Image env image bg st = (res, st') →
  filesToCleanup st' = filesToCleanup st
  ∧ ∀ path, path ∉ scratchPaths → files st' !! path = files st !! path.
Proof.
  destruct res as [imgs | e]; intros H.
  - apply processBase64Image_Ok_full in H as (_ & c & p1 & p2 & p3 & H). tauto.
  - apply processBase64Image_Throw_full in H. tauto.
Qed.


(** X5. A derivation that returns has run the three pipelines on the same
    image with success: the base tier with no overlay, the 2x and 3x tiers
    with one and the same overlay colour, the one [parseRGBColor] resolves.
    It returns the three fixed paths, whatever the request; it writes to no
    other path and registers nothing for cleanup. *)
Theorem processBase64Image_derives_three_tiers image bg st imgs st' :
  processBase64Image env image bg st = (Ok imgs, st') →
  imgs = (js "/tmp/strip.png", js "/tmp/strip@2x.png", js "/tmp/strip@3x.png")
  ∧ (∃ c p1 p2 p3,
       resolveColor (Some bg) = Some c
       ∧ sharp env Base image None = Ok p1
       ∧ sharp env Tier2x image (Some c) = Ok p2
       ∧ sharp env Tier3x image (Some c) = Ok p3)
  ∧ (∀ path, path ∉ scratchPaths → files st' !! path = files st !! path)
  ∧ filesToCleanup st' = filesToCleanup st.
Proof.
  intros H.
  apply processBase64Image_Ok_full in H
    as (Hi & c & p1 & p2 & p3 & Hc & H1 & H2 & H3 & _ & _ & _ & Hf & Hl).
  split; [done |]. split; [by exists c, p1, p2, p3 |]. done.
Qed.


End ProcessImage.

(** ** The handler and the disk *)

Section HandlerDisk.

Context (env : Env).

Lemma confined_bind {A B} P (m : M A) (k : A → M B) :
  confined P m → (∀ a, confined P (k a)) → confined P (bind m k).
Proof.
  intros Hm Hk st res st' Hst. unfold bind.
  destruct (m st) as [[a | e] st1] eqn:E.
  - intros H. destruct (Hm _ _ _ Hst E) as [H1 F1].
    destruct (Hk a _ _ _ H1 H) as [H2 F2]. split; [done |].
    intros path Hp. by rewrite F2, F1.
  - intros [= <- <-]. by apply (Hm _ _ _ Hst E).
Qed.

Lemma confined_same {A} P (m : M A) :
  (∀ st res st', m st = (res, st') → st' = st) → confined P m.
Proof. intros Hm st res st' Hst H. by rewrite (Hm _ _ _ H). Qed.

Lemma confined_lift {A} P (x : result A) : confined P (lift x).
Proof. apply confined_same. by intros st res st' [= <- <-]. Qed.

Lemma confined_ret {A} P (a : A) : confined P (ret a).
Proof. apply confined_same. by intros st res st' [= <- <-]. Qed.

Lemma confined_readFileSync P path : confined P (readFileSync path).
Proof.
  apply confined_same. intros st res st'. unfold readFileSync.
  destruct (files st !! path); by intros [= <- <-].
Qed.

Lemma confined_writeFile (P : jsstring → Prop) path content :
  P path → confined P (writeFile env path content).
Proof.
  intros HP st res st' Hst. unfold writeFile.
  destruct (writeArchive env path); intros [= <- <-].
  - split; [done |]. intros p Hp. simpl. apply lookup_insert_ne. by intros <-.
  - split; [done |]. intros p Hp. simpl.
    destruct (partialWrite env path content); [| done].
    apply lookup_insert_ne. by intros <-.
Qed.

Lemma confined_cleanup {A} (P : jsstring → Prop) (k : M A) :
  (∀ path, path ∈ scratchPaths → P path) → confined P k →
  confined P (bind getCleanup (λ toClean, bind (cleanupFiles env toClean) (λ _, k))).
Proof.
  intros HP Hk st res st' Hst. unfold bind at 1. unfold getCleanup.
  apply confined_bind; [| done | done].
  intros s r s' Hs H. rewrite (cleanupFiles_cleanup _ _ _ _ _ H). split; [done |].
  intros path Hp. apply (cleanupFiles_other _ _ _ _ _ _ H).
  intros Hin. apply Hp, HP. by apply Hst.
Qed.

Lemma confined_processBase64Image (P : jsstring → Prop) image bg :
  (∀ path, path ∈ scratchPaths → P path) → confined P (processBase64Image env image bg).
Proof.
  intros HP st res st' Hst H.
  destruct (processBase64Image_frame env _ _ _ _ _ H) as [Hc Hf].
  rewrite Hc. split; [done |]. intros path Hp. apply Hf. intros Hin. by apply Hp, HP.
Qed.

Lemma confined_pushCleanup P : confined P (pushCleanup scratchPaths).
Proof.
  intros st res st' Hst [= <- <-]. simpl. split; [| done].
  intros x [Hx | Hx]%elem_of_app; [by apply Hst | done].
Qed.

Lemma confined_tryBlock req : confined (ownPath env) (tryBlock env req).
Proof.
  assert (HP : ∀ path, path ∈ scratchPaths → (ownPath env) path) by (by left).
  unfold tryBlock. apply confined_bind.
  - destruct (stripImage req) as [[|c s] |]; try apply confined_ret.
    intros st res st' Hst H.
    destruct (processBase64Image env (c :: s) (orDefault (reqBackgroundColor req)) st)
      as [[imgs | e] st1] eqn:E.
    + pose proof E as E'. apply processBase64Image_Ok in E' as (-> & _).
      rewrite (bind_run _ _ _ _ _ E) in H. cbn [fst snd] in H.
      change [tierPath Base; tierPath Tier2x; tierPath Tier3x] with scratchPaths in H.
      destruct (confined_processBase64Image (ownPath env) _ _ HP _ _ _ Hst E) as [Hc1 Hf1].
      assert (Hk : confined (ownPath env)
                     (bind (pushCleanup scratchPaths)
                        (λ _, ret (Some (tierPath Base, tierPath Tier2x, tierPath Tier3x)))))
        by (apply confined_bind; [apply confined_pushCleanup | intros; apply confined_ret]).
      destruct (Hk _ _ _ Hc1 H) as [Hc2 Hf2]. split; [done |].
      intros path Hp. by rewrite Hf2, Hf1.
    + unfold bind in H. rewrite E in H. injection H as <- <-.
      by apply (confined_processBase64Image (ownPath env) _ _ HP _ _ _ Hst E).
  - intros stripImages. cbv zeta.
    repeat first
      [ apply confined_cleanup; [done |]
      | apply confined_bind; [| intros ?]
      | apply confined_lift | apply confined_ret | apply confined_readFileSync
      | apply confined_writeFile; by right
      | destruct stripImages as [[[? ?] ?] |] ].
Qed.

(** X7. Whatever the request and however the run ends, the handler changes
    the disk at four paths at most: the three scratch paths and the archive
    path of this clock reading. Every other file is as it was. *)
Theorem generatePass_touches_own_paths req disk0 path :
  path ∉ scratchPaths → path ≠ archivePath env →
  disk (generatePass env req disk0) !! path = disk0 !! path.
Proof.
  intros Hs Ha. assert (Hp : ¬ (ownPath env) path) by (by intros [? | ?]).
  unfold generatePass.
  destruct (tryBlock env req _) as [[gen | e] st] eqn:Htry;
    destruct (confined_tryBlock req {| files := disk0; filesToCleanup := [] |} _ _
                (list_subseteq_nil _) Htry) as [Hc Hf]; simpl in Hf;
    [by apply Hf |].
  destruct (cleanupFiles env (filesToCleanup st) st) as [[[] | e'] st'] eqn:Hcl;
    cbn [disk]; rewrite (cleanupFiles_other _ _ _ _ _ _ Hcl), (Hf path Hp); try done;
    intros Hin; by apply Hs, Hc.
Qed.


(** The [try] block of a request without an image: the state it leaves. A
    failed run leaves the disk as it was, unless it is the archive write
    that failed and left a file behind. *)
Lemma tryBlock_no_image req disk0 res st :
  truthy (stripImage req) = false →
  tryBlock env req (freshState disk0) = (res, st) →
  match res with
  | Ok gen =>
      ∃ buffer,
        signPass env (passJson gen) (modelFiles gen) = Ok buffer
        ∧ passPath gen = archivePath env
        ∧ st = {| files := <[archivePath env := buffer]> disk0; filesToCleanup := [] |}
  | Throw e =>
      st = freshState disk0
      ∨ ∃ buffer part,
          writeArchive env (archivePath env) = Throw e
          ∧ partialWrite env (archivePath env) buffer = Some part
          ∧ st = {| files := <[archivePath env := part]> disk0; filesToCleanup := [] |}
  end.
Proof.
  intros Hi. unfold tryBlock, freshState.
  assert (E : match stripImage req with
              | Some (c :: s) =>
                  (imgs <~ processBase64Image env (c :: s) (orDefault (reqBackgroundColor req)) ;;
                   pushCleanup [imgs.1.1; imgs.1.2; imgs.2] ;;;
                   ret (Some imgs))%js
              | _ => ret None
              end = ret None) by (by destruct (stripImage req) as [[|c s] |]).
  rewrite E. clear E.
  unfold bind, ret, lift, writeFile, getCleanup. cbn [files filesToCleanup cleanupFiles].
  destruct (readTemplate env) as [template |]; [| intros [= <- <-]; by left].
  destruct (updatePass env req _ template) as [pj |]; [| intros [= <- <-]; by left].
  destruct (readIcons env) as [icons |]; [| intros [= <- <-]; by left].
  destruct (signPass env pj _) as [buffer |] eqn:Hsign; [| intros [= <- <-]; by left].
  fold (archivePath env).
  destruct (writeArchive env (archivePath env)) as [[] | e1] eqn:Hw.
  - unfold ret. intros [= <- <-]. by exists buffer.
  - intros [= <- <-].
    destruct (partialWrite env (archivePath env) buffer) as [part |] eqn:Hpart;
      [right; by exists buffer, part | by left].
Qed.

(** X8. A request without an image changes the disk at its archive path
    and nowhere else. When it succeeds the disk is the old one with the
    signed archive added under temp/<serial>.pkpass. When it fails the
    caller is answered with the failure, and the disk is the old one unless
    it is the archive write that failed: a failed write may leave behind the
    file it had created or truncated, under that same path. *)
Theorem generatePass_without_image req disk0 :
  truthy (stripImage req) = false →
  match generated (generatePass env req disk0) with
  | Some gen =>
      ∃ buffer,
        signPass env (passJson gen) (modelFiles gen) = Ok buffer
        ∧ disk (generatePass env req disk0)
          = <[js "temp/" ++ toString (now env) ++ js ".pkpass" := buffer]> disk0
  | None =>
      ∃ e,
        response (generatePass env req disk0) = Failure e
        ∧ (disk (generatePass env req disk0) = disk0
           ∨ ∃ buffer part,
               writeArchive env (js "temp/" ++ toString (now env) ++ js ".pkpass") = Throw e
               ∧ partialWrite env (js "temp/" ++ toString (now env) ++ js ".pkpass") buffer
                 = Some part
               ∧ disk (generatePass env req disk0)
                 = <[js "temp/" ++ toString (now env) ++ js ".pkpass" := part]> disk0)
  end.
Proof.
  intros Hi. unfold generatePass.
  destruct (tryBlock env req _) as [[gen | e] st] eqn:Htry;
    apply (tryBlock_no_image req disk0 _ _ Hi) in Htry; cbn beta iota in Htry.
  - destruct Htry as (buffer & Hsign & _ & ->). cbn [generated disk files].
    by exists buffer.
  - destruct Htry as [-> | (buffer & part & Hw & Hpart & ->)];
      cbn [freshState filesToCleanup cleanupFiles ret generated disk response files];
      exists e; (split; [done |]); [by left |].
    right. by exists buffer, part.
Qed.

(** X9. The caller is left without an answer only when a scratch file
    cannot be deleted: on a file system where [unlinkSync] does not fail,
    and for every request without an image on any file system, the handler
    answers, with the success payload or with the failure payload. *)
Theorem generatePass_answers req disk0 :
  (∀ path, unlinkSync env path = Ok ()) ∨ truthy (stripImage req) = false →
  (∃ url id, response (generatePass env req disk0) = Success url id)
  ∨ (∃ e, response (generatePass env req disk0) = Failure e).
Proof.
  intros Hcase. unfold generatePass.
  destruct (tryBlock env req _) as [[gen | e] st] eqn:Htry; [left; by eexists _, _ |].
  right. destruct Hcase as [Hu | Hi].
  - destruct (cleanupFiles_succeeds env (filesToCleanup st) st Hu) as [st' ->].
    by exists e.
  - apply (tryBlock_no_image req disk0 _ _ Hi) in Htry. cbn beta iota in Htry.
    destruct Htry as [-> | (buffer & part & _ & _ & ->)]; by exists e.
Qed.

Lemma bind_lift_Throw {A B} (x : result A) (k : A → M B) st e st' :
  bind (lift x) k st = (Throw e, st') →
  st' = st ∨ ∃ a, x = Ok a ∧ k a st = (Throw e, st').
Proof.
  unfold bind, lift. destruct x as [a | e1]; [eauto |]. intros [= <- <-]. by left.
Qed.

(** When the [try] block throws on a file system where [unlinkSync] does
    not fail and the archive can be written, it has not written the
    archive. *)
Lemma tryBlock_Throw_archive req disk0 e st :
  (∀ path, unlinkSync env path = Ok ()) →
  writeArchive env (archivePath env) = Ok () →
  tryBlock env req (freshState disk0) = (Throw e, st) →
  files st !! archivePath env = disk0 !! archivePath env
  ∧ filesToCleanup st ⊆ scratchPaths.
Proof.
  intros Hu Hwrite Htry.
  destruct (confined_tryBlock req (freshState disk0) _ _ (list_subseteq_nil _) Htry)
    as [Hc _].
  split; [| done]. revert Htry. unfold tryBlock. intros H.
  assert (Hna : archivePath env ∉ scratchPaths).
  { unfold scratchPaths. rewrite !not_elem_of_cons.
    repeat split; try apply passPath_not_scratch. apply not_elem_of_nil. }
  assert (Hstep1 : ∀ res st1,
    match stripImage req with
    | Some (c :: s) =>
        (imgs <~ processBase64Image env (c :: s) (orDefault (reqBackgroundColor req)) ;;
         pushCleanup [imgs.1.1; imgs.1.2; imgs.2] ;;;
         ret (Some imgs))%js
    | _ => ret None
    end (freshState disk0) = (res, st1) →
    files st1 !! archivePath env = disk0 !! archivePath env).
  { intros res st1. destruct (stripImage req) as [[|c s] |];
      try (by intros [= <- <-]).
    unfold bind at 1.
    destruct (processBase64Image env _ _ _) as [[imgs | e1] s1] eqn:E;
      destruct (processBase64Image_frame env _ _ _ _ _ E) as [_ Hf].
    - unfold bind, pushCleanup, ret. intros [= <- <-]. simpl. by apply Hf.
    - intros [= <- <-]. by apply Hf. }
  apply bind_Throw in H as [H | (imgs & st1 & H1 & H)]; [by apply (Hstep1 _ _ H) |].
  apply Hstep1 in H1. cbv zeta in H. rewrite <- H1. clear H1 Hstep1.
  apply bind_lift_Throw in H as [-> | (template & _ & H)]; [done |].
  apply bind_lift_Throw in H as [-> | (pj & _ & H)]; [done |].
  apply bind_lift_Throw in H as [-> | (icons & _ & H)]; [done |].
  apply bind_Throw in H as [H | (strips & st5 & H5 & H)].
  - assert (st = st1) as -> ; [| done].
    destruct imgs as [[[i1 i2] i3] |]; [| done].
    revert H. unfold bind, readFileSync, ret.
    repeat match goal with
           | |- context [match files ?s !! ?p with _ => _ end] => destruct (files s !! p)
           end; by intros [= <-].
  - assert (st5 = st1) as ->.
    { destruct imgs as [[[i1 i2] i3] |]; [| by injection H5 as <-].
      revert H5. unfold bind, readFileSync, ret.
      repeat match goal with
             | |- context [match files ?s !! ?p with _ => _ end] => destruct (files s !! p)
             end; by intros [= <-]. }
    cbv zeta in H.
    apply bind_lift_Throw in H as [-> | (buffer & _ & H)]; [done |].
    apply bind_Throw in H as [H | ([] & st7 & H7 & H)].
    + exfalso. revert H. unfold writeFile. fold (archivePath env). by rewrite Hwrite.
    + exfalso. apply bind_Throw in H as [H | (toClean & st8 & H8 & H)]; [done |].
      injection H8 as <- <-.
      apply bind_Throw in H as [H | ([] & st9 & H9 & H)]; [| done].
      destruct (cleanupFiles_succeeds env (filesToCleanup st7) st7 Hu) as [st' E].
      congruence.
Qed.

(** X10. A request that fails before its archive is written leaves no
    archive behind: on a file system where [unlinkSync] does not fail and
    the archive path can be written, whenever the caller is answered with
    the failure payload, the path temp/<serial>.pkpass holds what it held
    before the request (nothing, if there was no such file). The archive
    write is the last step that can fail. *)
Theorem failure_leaves_no_archive req disk0 e :
  (∀ path, unlinkSync env path = Ok ()) →
  writeArchive env (js "temp/" ++ toString (now env) ++ js ".pkpass") = Ok () →
  response (generatePass env req disk0) = Failure e →
  disk (generatePass env req disk0) !! (js "temp/" ++ toString (now env) ++ js ".pkpass")
  = disk0 !! (js "temp/" ++ toString (now env) ++ js ".pkpass").
Proof.
  intros Hu Hw. unfold generatePass.
  destruct (tryBlock env req _) as [[gen | e1] st] eqn:Htry; [done |].
  destruct (tryBlock_Throw_archive req disk0 _ _ Hu Hw Htry) as [Ha Hc].
  destruct (cleanupFiles env (filesToCleanup st) st) as [[[] | e'] st'] eqn:Hcl; [| done].
  intros _. cbn [disk].
  change (js "temp/" ++ toString (now env) ++ js ".pkpass") with (archivePath env).
  rewrite (cleanupFiles_other _ _ _ _ _ _ Hcl); [done |].
  intros Hin. apply Hc in Hin. revert Hin. unfold scratchPaths.
  rewrite !elem_of_cons. intros [H | [H | [H | H%elem_of_nil]]]; try done;
    by apply passPath_not_scratch in H.
Qed.

(** X11. Once the three tiers of an image-bearing request have been
    derived, every run of the handler that answers the caller, with the
    success payload or with the failure payload of any later step, has
    deleted the three scratch files before it answers. *)
Theorem scratch_deleted_after_derivation req disk0 image imgs st1 :
  stripImage req = Some image → image ≠ [] →
  processBase64Image env image (orDefault (reqBackgroundColor req)) (freshState disk0)
  = (Ok imgs, st1) →
  (∀ e, response (generatePass env req disk0) ≠ NoResponse e) →
  disk (generatePass env req disk0) !! js "/tmp/strip.png" = None
  ∧ disk (generatePass env req disk0) !! js "/tmp/strip@2x.png" = None
  ∧ disk (generatePass env req disk0) !! js "/tmp/strip@3x.png" = None.
Proof.
  intros Hi Hne Hproc Hresp.
  pose proof (scratch_released env req disk0 image imgs st1 Hi Hne Hproc Hresp) as H.
  split; [apply (H Base) | split; [apply (H Tier2x) | apply (H Tier3x)]].
Qed.

End HandlerDisk.

(** ** The manifest and the asset bundle *)

Section ManifestMore.

Context (env : Env).

Lemma generated_updatePass req disk0 gen :
  generated (generatePass env req disk0) = Some gen →
  ∃ template,
    readTemplate env = Ok template
    ∧ updatePass env req (toString (now env)) template = Ok (passJson gen).
Proof.
  intros (st' & Htry & _)%generatePass_generated.
  apply tryBlock_Ok in Htry as (template & buffer & Ht & Hid & _ & _ & Hup & _).
  exists template. by rewrite <- Hid.
Qed.

(** X12. Besides the serial number, the two barcode slots and the
    background colour, the handler changes nothing of the template but the
    [value] of the first field of the header, primary and secondary slots:
    the template's other members, the other keys of every field and all
    fields after the first are in the manifest as they are in the template. *)
Theorem manifest_keeps_rest_of_template req disk0 gen template :
  generated (generatePass env req disk0) = Some gen →
  readTemplate env = Ok template →
  otherProps (passJson gen) = otherProps template
  ∧ (otherKeys <$> headerFields (coupon (passJson gen)))
    = (otherKeys <$> headerFields (coupon template))
  ∧ tail (headerFields (coupon (passJson gen))) = tail (headerFields (coupon template))
  ∧ (otherKeys <$> primaryFields (coupon (passJson gen)))
    = (otherKeys <$> primaryFields (coupon template))
  ∧ tail (primaryFields (coupon (passJson gen))) = tail (primaryFields (coupon template))
  ∧ (otherKeys <$> secondaryFields (coupon (passJson gen)))
    = (otherKeys <$> secondaryFields (coupon template))
  ∧ tail (secondaryFields (coupon (passJson gen))) = tail (secondaryFields (coupon template)).
Proof.
  intros (template' & Ht' & Hup)%generated_updatePass Ht.
  assert (template' = template) as -> by congruence.
  apply updatePass_Ok in Hup as (_ & _ & _ & _ & Ho & Hp & Hs & Hh).
  assert (Hset : ∀ fields v fields',
            setValue0 fields v = Ok fields' →
            (otherKeys <$> fields') = (otherKeys <$> fields) ∧ tail fields' = tail fields).
  { intros fields v fields' (f & rest & -> & ->)%setValue0_Ok. done. }
  split; [done |].
  assert (Hh' : (otherKeys <$> headerFields (coupon (passJson gen)))
                = (otherKeys <$> headerFields (coupon template))
                ∧ tail (headerFields (coupon (passJson gen)))
                  = tail (headerFields (coupon template))).
  { destruct (expiryDate req) as [[|c s] |]; try (by injection Hh as <-).
    by apply Hset in Hh. }
  assert (Hs' : (otherKeys <$> secondaryFields (coupon (passJson gen)))
                = (otherKeys <$> secondaryFields (coupon template))
                ∧ tail (secondaryFields (coupon (passJson gen)))
                  = tail (secondaryFields (coupon template))).
  { destruct (truthy (serviceType req)); [by apply Hset in Hs | by injection Hs as <-]. }
  apply Hset in Hp. tauto.
Qed.

(** X13. When the request gives a non-empty [serviceType], the value of
    the manifest's secondary field is that text as it came. *)
Theorem secondary_field_verbatim req disk0 gen label :
  generated (generatePass env req disk0) = Some gen →
  serviceType req = Some label → label ≠ [] →
  ∃ f rest,
    secondaryFields (coupon (passJson gen)) = f :: rest
    ∧ value f = VString label.
Proof.
  intros (template & _ & Hup)%generated_updatePass Hl Hne.
  apply updatePass_Ok in Hup as (_ & _ & _ & _ & _ & _ & Hs & _).
  rewrite Hl in Hs. destruct label as [|c s]; [done |]. simpl in Hs.
  apply setValue0_Ok in Hs as (f & rest & _ & ->). by eexists _, _.
Qed.

(** X14. A pass is generated only from a template that has the slots the
    request fills: a primary field always, a secondary field when the
    request gives a non-empty [serviceType], a header field when it gives a
    non-empty [expiryDate]. With a slot missing the request fails; a slot
    the request does not fill may be missing. *)
Theorem generated_needs_template_slots req disk0 gen template :
  generated (generatePass env req disk0) = Some gen →
  readTemplate env = Ok template →
  primaryFields (coupon template) ≠ []
  ∧ (truthy (serviceType req) = true → secondaryFields (coupon template) ≠ [])
  ∧ (truthy (expiryDate req) = true → headerFields (coupon template) ≠ []).
Proof.
  intros (template' & Ht' & Hup)%generated_updatePass Ht.
  assert (template' = template) as -> by congruence.
  apply updatePass_Ok in Hup as (_ & _ & _ & _ & _ & Hp & Hs & Hh).
  split; [| split].
  - by apply setValue0_Ok in Hp as (f & rest & -> & _).
  - intros E. rewrite E in Hs. by apply setValue0_Ok in Hs as (f & rest & -> & _).
  - intros E. destruct (expiryDate req) as [[|c s] |]; try done.
    by apply setValue0_Ok in Hh as (f & rest & -> & _).
Qed.

Lemma tryBlock_Ok_assets req disk0 gen st' :
  tryBlock env req (freshState disk0) = (Ok gen, st') →
  ∃ i1 i2 i3,
    readIcons env = Ok (i1, i2, i3)
    ∧ match stripImage req with
      | Some (c :: s) =>
          ∃ col p1 p2 p3,
            resolveColor (reqBackgroundColor req) = Some col
            ∧ sharp env Base (c :: s) None = Ok p1
            ∧ sharp env Tier2x (c :: s) (Some col) = Ok p2
            ∧ sharp env Tier3x (c :: s) (Some col) = Ok p3
            ∧ modelFiles gen
              = [(js "icon.png", i1); (js "icon@2x.png", i2); (js "icon@3x.png", i3);
                 (js "strip.png", p1); (js "strip@2x.png", p2); (js "strip@3x.png", p3)]
      | _ =>
          modelFiles gen
          = [(js "icon.png", i1); (js "icon@2x.png", i2); (js "icon@3x.png", i3)]
      end.
Proof.
  unfold tryBlock. intros H.
  apply bind_Ok in H as (imgs & st1 & Himg & H). cbn beta zeta in H.
  apply bind_Ok in H as (template & st2 & Ht & H). apply lift_Ok in Ht as [Ht ->].
  apply bind_Ok in H as (pj & st3 & Hp & H). apply lift_Ok in Hp as [Hp ->].
  apply bind_Ok in H as ([[i1 i2] i3] & st4 & Hi & H). apply lift_Ok in Hi as [Hi ->].
  apply bind_Ok in H as (strips & st5 & Hs & H). cbn beta zeta in H.
  apply bind_Ok in H as (buffer & st6 & Hb & H). apply lift_Ok in Hb as [Hb ->].
  apply bind_Ok in H as ([] & st7 & Hw & H).
  apply bind_Ok in H as (toClean & st8 & Hc & H).
  apply bind_Ok in H as ([] & st9 & Hcl & H).
  injection H as <- <-. cbn [modelFiles fst snd].
  exists i1, i2, i3. split; [done |].
  destruct (stripImage req) as [[|c s] |].
  - injection Himg as <- <-. by injection Hs as <- <-.
  - apply bind_Ok in Himg as (paths & s1 & Hpr & Himg).
    apply processBase64Image_Ok_full in Hpr
      as (-> & col & p1 & p2 & p3 & Hcol & H1 & H2 & H3 & F1 & F2 & F3 & _).
    apply bind_Ok in Himg as ([] & s2 & Hpush & Himg).
    injection Hpush as <-. injection Himg as <- <-.
    unfold resolveColor in Hcol. rewrite orDefault_idem in Hcol.
    exists col, p1, p2, p3. repeat (split; [done |]).
    revert Hs. unfold bind, readFileSync, ret. cbn [files].
    change (tierPath Base) with (js "/tmp/strip.png").
    change (tierPath Tier2x) with (js "/tmp/strip@2x.png").
    change (tierPath Tier3x) with (js "/tmp/strip@3x.png").
    rewrite F1. cbn beta iota. cbn [files]. rewrite F2. cbn beta iota. cbn [files].
    rewrite F3. cbn beta iota.
    by intros [= <- <-].
  - injection Himg as <- <-. by injection Hs as <- <-.
Qed.

(** X15. The bundle handed to the signer holds the three icons as they
    were read, always and first, followed by entries named strip.png,
    strip@2x.png and strip@3x.png exactly when the request carries a
    non-empty image, and by nothing otherwise. *)
Theorem bundle_assets req disk0 gen :
  generated (generatePass env req disk0) = Some gen →
  ∃ icons strips,
    readIcons env = Ok icons
    ∧ modelFiles gen = iconAssets icons ++ strips
    ∧ (fst <$> strips)
      = if truthy (stripImage req)
        then [js "strip.png"; js "strip@2x.png"; js "strip@3x.png"]
        else [].
Proof.
  intros (st' & Htry & _)%generatePass_generated.
  apply tryBlock_Ok_assets in Htry as (i1 & i2 & i3 & Hi & Hm).
  exists (i1, i2, i3).
  destruct (stripImage req) as [[|c s] |].
  - by exists [].
  - destruct Hm as (col & p1 & p2 & p3 & _ & _ & _ & _ & ->).
    by exists [(js "strip.png", p1); (js "strip@2x.png", p2); (js "strip@3x.png", p3)].
  - by exists [].
Qed.

(** X16. Two generated passes carry the same serial number exactly when
    their requests read the same millisecond from the clock, and then they
    are persisted under the same archive path too: the serial number depends
    on nothing else of the request or the host. *)
Theorem serials_equal_iff_same_millisecond env2 req1 req2 d1 d2 g1 g2 :
  generated (generatePass env req1 d1) = Some g1 →
  generated (generatePass env2 req2 d2) = Some g2 →
  (serialNumber (passJson g1) = serialNumber (passJson g2) ↔ now env = now env2)
  ∧ (passPath g1 = passPath g2 ↔ now env = now env2).
Proof. apply serial_of_clock. Qed.

(** X22. After a successful request the archive on disk, under the path
    the response names, is exactly what the signer returned for the
    manifest and the bundle of this request. *)
Theorem archive_is_signer_output req disk0 gen :
  generated (generatePass env req disk0) = Some gen →
  ∃ buffer,
    signPass env (passJson gen) (modelFiles gen) = Ok buffer
    ∧ disk (generatePass env req disk0) !! passPath gen = Some buffer
    ∧ response (generatePass env req disk0)
      = Success (protocol env ++ js "://" ++ host env ++ js "/passes/"
                 ++ serialNumber (passJson gen) ++ js ".pkpass")
                (serialNumber (passJson gen)).
Proof.
  intros (st' & Htry & ->)%generatePass_generated.
  apply tryBlock_Ok in Htry as (template & buffer & _ & Hid & Hurl & _ & Hup & Hsign & Hdisk & _).
  apply updatePass_Ok in Hup as (Hs & _).
  exists buffer. cbn [disk response]. by rewrite Hurl, Hs.
Qed.

Lemma uint_digits d :
  Forall (λ c, Regex.isDigit c = true) (js (NilEmpty.string_of_uint d)).
Proof. induction d; unfold js in *; simpl; by constructor. Qed.

(** X17. When the clock does not read a time before 1970, the serial number
    is a non-empty run of decimal digits: it holds no sign, separator or
    path character, so the archive path is temp/ followed by digits and
    ".pkpass". *)
Theorem serial_is_digits req disk0 gen :
  0 ≤ now env →
  generated (generatePass env req disk0) = Some gen →
  serialNumber (passJson gen) ≠ []
  ∧ Forall (λ c, Regex.isDigit c = true) (serialNumber (passJson gen))
  ∧ passPath gen = js "temp/" ++ serialNumber (passJson gen) ++ js ".pkpass".
Proof.
  intros Hnow (st' & Htry & _)%generatePass_generated.
  apply tryBlock_Ok in Htry as (template & buffer & _ & Hid & _ & Hpath & Hup & _).
  apply updatePass_Ok in Hup as (Hs & _). rewrite Hs, Hpath, Hid.
  split; [| split; [| done]].
  - unfold toString. destruct (now env) as [|p|p]; [done | | lia].
    simpl. pose proof (DecimalPos.Unsigned.to_uint_nonnil p) as Hn.
    destruct (Pos.to_uint p); by unfold js.
  - unfold toString. destruct (now env) as [|p|p]; [| | lia]; apply uint_digits.
Qed.

End ManifestMore.

(** ** The expiry date *)

Section ExpiryMore.
Import JSDate.

Context (env : Env).

Lemma setDate_getDate_general tz t :
  setDate tz (Some t) ((λ n, n + 1) <$> getDate tz (Some t))
  = TimeClip (t + msPerDay + tz t true - tz (LocalTime tz t + msPerDay) false).
Proof.
  unfold setDate, getDate. simpl. rewrite MakeDay_next. f_equal. unfold UTC.
  assert (E : MakeDate (Day (LocalTime tz t) + 1) (TimeWithinDay (LocalTime tz t))
              = LocalTime tz t + msPerDay).
  { unfold MakeDate, Day, TimeWithinDay.
    pose proof (Z.div_mod (LocalTime tz t) msPerDay). unfold msPerDay in *. lia. }
  rewrite E. unfold LocalTime. lia.
Qed.



(** X19. In any time zone, for an [expiryDate] that is a calendar date in
    the form YYYY-MM-DD, the header field holds the supplied date's UTC
    midnight plus 24 hours plus the amount by which the zone's offset at
    that instant exceeds its offset for the local time one day later: the
    date is parsed in UTC and moved on in local time. *)
Theorem header_in_any_zone req disk0 gen text y m d :
  generated (generatePass env req disk0) = Some gen →
  expiryDate req = Some text →
  parseDateOnly text = Some (y, m, d) → validDate y m d = true →
  let t0 := MakeDate (MakeDay y (m - 1) d) 0 in
  ∃ f rest,
    headerFields (coupon (passJson gen)) = f :: rest
    ∧ value f = VDate (TimeClip (t0 + msPerDay
                                 + (tz env t0 true
                                    - tz env (t0 + tz env t0 true + msPerDay) false))).
Proof.
  intros (template & _ & Hup)%generated_updatePass Ht Hp Hv. cbv zeta.
  apply updatePass_Ok in Hup as (_ & _ & _ & _ & _ & _ & _ & Hh).
  destruct (parseDateOnly_year _ _ _ _ Hp) as [Hy Hne].
  rewrite Ht in Hh. destruct text as [|c s]; [done |].
  apply setValue0_Ok in Hh as (f & rest & _ & ->).
  eexists _, _. split; [done |]. simpl. f_equal.
  unfold expirationDate, newDate, parse. rewrite Hp, Hv.
  destruct (validDate_range _ _ _ Hv) as [Hm Hd].
  pose proof (TimeClip_date y m d 0 Hy Hm Hd ltac:(lia)) as E0.
  rewrite Z.mul_0_l, Z.add_0_r in E0.
  cbn [mbind option_bind]. rewrite E0. cbn [mbind option_bind].
  rewrite setDate_getDate_general. unfold LocalTime. f_equal. lia.
Qed.

End ExpiryMore.

(** ** Colours *)

Section ColourMore.
Import Regex RegexFacts.

Lemma decimalValue_nonneg m : isDigits m → 0 ≤ decimalValue m.
Proof.
  intros [_ Hm]. unfold decimalValue.
  assert (H : ∀ acc, 0 ≤ acc → 0 ≤ foldl (λ a c, 10 * a + digitValue c) acc m).
  { induction Hm as [|c m Hc _ IH]; intros acc Hacc; simpl; [done |].
    apply IH. apply digitValue_range in Hc. lia. }
  by apply H.
Qed.

Lemma toDouble_count n : 0 ≤ n → isCount (toDouble n).
Proof.
  intros Hn. unfold toDouble.
  destruct (n <? 2 ^ 53); [done |]. cbv zeta.
  match goal with |- context [if ?c then Infinity else _] => destruct c end; [done |].
  simpl. apply Z.mul_nonneg_nonneg; [| apply Z.pow_nonneg; lia].
  assert (0 ≤ n / 2 ^ (Z.log2 n - 52)).
  { destruct (Z.le_gt_cases 0 (Z.log2 n - 52)) as [He | He].
    - apply Z.div_pos; [done |]. by apply Z.pow_pos_nonneg.
    - rewrite Z.pow_neg_r by lia. by rewrite Z.div_0_r. }
  match goal with |- context [if ?c then _ else _] => destruct c end; lia.
Qed.

(** X20. Whatever string it is given, [parseRGBColor] returns components
    that are non-negative integers (or Infinity for a run of digits beyond
    the range of a Number): no component is NaN, negative or fractional, so
    the overlay handed to the image library is always a colour triple. *)
Theorem parseRGBColor_components_are_counts n s c :
  parseRGBColor n s = Some c → isCount (r c) ∧ isCount (g c) ∧ isCount (b c).
Proof.
  revert s. induction n as [|n IH]; intros s; [done |]. simpl.
  destruct (matchRGB s) as [[[m1 m2] m3] |] eqn:E; [| apply IH].
  intros [= <-]. apply matchRGB_Some in E as (pre & (w1 & w2 & post & _ & D1 & D2 & D3 & _) & _).
  simpl. rewrite !parseInt_digits by done.
  repeat split; by apply toDouble_count, decimalValue_nonneg.
Qed.

(** X21. A colour string that does not contain the text "rgb(" in lower
    case resolves to the default sky blue: hexadecimal colours, colour
    names, "RGB(...)" in capitals and "rgba(...)" are not read, and the
    overlay silently takes the default. *)
Theorem colour_without_rgb_text_is_default s :
  (∀ pre post, s ≠ pre ++ js "rgb(" ++ post) →
  resolveColor (Some s) = Some (RGB (Finite 41) (Finite 128) (Finite 185)).
Proof.
  intros Hs. unfold resolveColor, callDepth.
  destruct s as [|c s]; [reflexivity |].
  apply parseRGBColor_fallback, matchRGB_None.
  intros (pre & m1 & m2 & m3 & w1 & w2 & post & E & _).
  apply (Hs pre (m1 ++ js "," ++ w1 ++ m2 ++ js "," ++ w2 ++ m3 ++ js ")" ++ post)).
  etrans; [exact E |]. unfold matchText. by rewrite <- !app_assoc.
Qed.

End ColourMore.

(** ** The further properties at concrete inputs *)

Section MoreInstances.

Lemma cleanupFiles_deletes_exactly_listed_witness :
  ∃ st',
    cleanupFiles sampleEnv scratchPaths (freshState sampleDisk) = (Ok (), st')
    ∧ files st' !! js "/tmp/strip.png" = None
    ∧ files st' !! js "notes.txt" = Some (js "keep").
Proof.
  destruct (cleanupFiles sampleEnv scratchPaths (freshState sampleDisk))
    as [[[] | e] st'] eqn:H; [| by vm_compute in H].
  exists st'. split; [done |].
  destruct (cleanupFiles_deletes_exactly_listed sampleEnv _ _ _ H) as (Hgone & Hkept & _).
  split.
  - apply Hgone. by left.
  - etrans; [apply Hkept; compute_done | by vm_compute].
Defined.

Lemma cleanupFiles_skips_missing_witness :
  cleanupFiles unlinkFailsEnv scratchPaths (freshState ∅) = (Ok (), freshState ∅).
Proof.
  apply (cleanupFiles_skips_missing unlinkFailsEnv scratchPaths (freshState ∅)).
  intros path _. apply lookup_empty.
Defined.

Lemma cleanupFiles_stops_at_failure_witness :
  ∃ st',
    cleanupFiles unlinkFailsEnv scratchPaths (freshState threeTiersDisk)
    = (Throw (js "EPERM"), st')
    ∧ files st' !! js "/tmp/strip.png" = None
    ∧ files st' !! js "/tmp/strip@2x.png" = Some (js "b")
    ∧ files st' !! js "/tmp/strip@3x.png" = Some (js "c").
Proof.
  destruct (cleanupFiles_stops_at_failure unlinkFailsEnv
              [js "/tmp/strip.png"] (js "/tmp/strip@2x.png") [js "/tmp/strip@3x.png"]
              (freshState threeTiersDisk) (js "EPERM"))
    as (st' & Hrun & Hgone & Hkept).
  - intros path ->%list_elem_of_singleton. by vm_compute.
  - compute_done.
  - exists (js "b"). by vm_compute.
  - by vm_compute.
  - exists st'. split; [exact Hrun |]. split; [apply Hgone; by left |].
    split; (etrans; [apply Hkept; compute_done | by vm_compute]).
Defined.

Lemma cleanupFiles_idempotent_witness :
  ∃ st',
    cleanupFiles sampleEnv scratchPaths (freshState threeTiersDisk) = (Ok (), st')
    ∧ cleanupFiles sampleEnv scratchPaths st' = (Ok (), st').
Proof.
  destruct (cleanupFiles sampleEnv scratchPaths (freshState threeTiersDisk))
    as [[[] | e] st'] eqn:H; [| by vm_compute in H].
  exists st'. split; [done |].
  exact (cleanupFiles_idempotent sampleEnv _ _ _ H).
Defined.

Lemma processBase64Image_derives_three_tiers_witness :
  ∃ imgs st',
    processBase64Image sampleEnv (js "IMG") (js "not-a-color") (freshState sampleDisk)
    = (Ok imgs, st')
    ∧ imgs = (js "/tmp/strip.png", js "/tmp/strip@2x.png", js "/tmp/strip@3x.png")
    ∧ files st' !! js "notes.txt" = Some (js "keep")
    ∧ filesToCleanup st' = [].
Proof.
  destruct (processBase64Image sampleEnv (js "IMG") (js "not-a-color") (freshState sampleDisk))
    as [[imgs | e] st'] eqn:H; [| by vm_compute in H].
  exists imgs, st'. split; [done |].
  destruct (processBase64Image_derives_three_tiers sampleEnv _ _ _ _ _ H)
    as (Himgs & _ & Hf & Hl).
  split; [exact Himgs |]. split; [| exact Hl].
  etrans; [apply Hf; compute_done | by vm_compute].
Defined.


Lemma generatePass_touches_own_paths_witness :
  disk (generatePass sampleEnv imageRequest sampleDisk) !! js "notes.txt"
  = Some (js "keep").
Proof.
  etrans; [apply (generatePass_touches_own_paths sampleEnv imageRequest sampleDisk
                    (js "notes.txt")); [compute_done | by vm_compute] |].
  by vm_compute.
Defined.

Lemma generatePass_without_image_witness :
  ∃ e,
    response (generatePass diskFullEnv requestA sampleDisk) = Failure e
    ∧ (disk (generatePass diskFullEnv requestA sampleDisk) = sampleDisk
       ∨ ∃ buffer part,
           writeArchive diskFullEnv (js "temp/" ++ toString (now diskFullEnv) ++ js ".pkpass")
           = Throw e
           ∧ partialWrite diskFullEnv
               (js "temp/" ++ toString (now diskFullEnv) ++ js ".pkpass") buffer
             = Some part
           ∧ disk (generatePass diskFullEnv requestA sampleDisk)
             = <[js "temp/" ++ toString (now diskFullEnv) ++ js ".pkpass" := part]>
                 sampleDisk).
Proof.
  pose proof (generatePass_without_image diskFullEnv requestA sampleDisk eq_refl) as H.
  destruct (generated (generatePass diskFullEnv requestA sampleDisk)) as [gen |] eqn:Hgen;
    [by vm_compute in Hgen | exact H].
Defined.

Lemma generatePass_answers_witness :
  (∃ url id, response (generatePass unlinkFailsEnv requestA sampleDisk) = Success url id)
  ∨ (∃ e, response (generatePass unlinkFailsEnv requestA sampleDisk) = Failure e).
Proof.
  exact (generatePass_answers unlinkFailsEnv requestA sampleDisk (or_intror eq_refl)).
Defined.

Lemma failure_leaves_no_archive_witness :
  response (generatePass signFailsEnv imageRequest sampleDisk)
  = Failure (js "Invalid certificate")
  ∧ disk (generatePass signFailsEnv imageRequest sampleDisk)
      !! js "temp/1736467200000.pkpass" = None.
Proof.
  assert (H : response (generatePass signFailsEnv imageRequest sampleDisk)
              = Failure (js "Invalid certificate")) by (by vm_compute).
  split; [exact H |].
  etrans; [exact (failure_leaves_no_archive signFailsEnv imageRequest sampleDisk _
                    (λ _, eq_refl) eq_refl H) |].
  by vm_compute.
Defined.

Lemma scratch_deleted_after_derivation_witness :
  disk (generatePass signFailsEnv imageRequest sampleDisk) !! js "/tmp/strip.png" = None
  ∧ disk (generatePass signFailsEnv imageRequest sampleDisk) !! js "/tmp/strip@2x.png" = None
  ∧ disk (generatePass signFailsEnv imageRequest sampleDisk) !! js "/tmp/strip@3x.png" = None.
Proof.
  destruct (processBase64Image signFailsEnv (js "IMG")
              (orDefault (reqBackgroundColor imageRequest)) (freshState sampleDisk))
    as [[imgs | e] st1] eqn:H; [| by vm_compute in H].
  apply (scratch_deleted_after_derivation signFailsEnv imageRequest sampleDisk
           (js "IMG") imgs st1); [reflexivity | done | exact H |].
  intros e He. by vm_compute in He.
Defined.

Lemma manifest_keeps_rest_of_template_witness :
  ∃ gen,
    generated (generatePass sampleEnv requestA ∅) = Some gen
    ∧ otherProps (passJson gen) = [(js "formatVersion", VNumber 1)]
    ∧ (otherKeys <$> headerFields (coupon (passJson gen)))
      = [[(js "key", VString (js "expires"))]].
Proof.
  destruct (generated (generatePass sampleEnv requestA ∅)) as [gen |] eqn:Hgen;
    [| by vm_compute in Hgen].
  exists gen. split; [done |].
  destruct (manifest_keeps_rest_of_template sampleEnv requestA ∅ gen sampleTemplate
              Hgen eq_refl) as (Ho & Hh & _).
  split; [exact Ho | exact Hh].
Defined.

Lemma secondary_field_verbatim_witness :
  ∃ gen f rest,
    generated (generatePass sampleEnv requestA ∅) = Some gen
    ∧ secondaryFields (coupon (passJson gen)) = f :: rest
    ∧ value f = VString (js "Gold").
Proof.
  destruct (generated (generatePass sampleEnv requestA ∅)) as [gen |] eqn:Hgen;
    [| by vm_compute in Hgen].
  destruct (secondary_field_verbatim sampleEnv requestA ∅ gen (js "Gold") Hgen eq_refl)
    as (f & rest & Hs & Hv); [done |].
  by exists gen, f, rest.
Defined.

Lemma generated_needs_template_slots_witness :
  ∃ gen template,
    generated (generatePass primaryOnlyEnv discountOnly ∅) = Some gen
    ∧ readTemplate primaryOnlyEnv = Ok template
    ∧ primaryFields (coupon template) ≠ []
    ∧ secondaryFields (coupon template) = []
    ∧ headerFields (coupon template) = [].
Proof.
  destruct (generated (generatePass primaryOnlyEnv discountOnly ∅)) as [gen |] eqn:Hgen;
    [| by vm_compute in Hgen].
  eexists gen, _. split; [done |]. split; [reflexivity |].
  destruct (generated_needs_template_slots primaryOnlyEnv discountOnly ∅ gen _ Hgen eq_refl)
    as (Hp & _).
  split; [exact Hp |]. by split.
Defined.

Lemma bundle_assets_witness :
  ∃ gen,
    generated (generatePass sampleEnv imageRequest ∅) = Some gen
    ∧ (fst <$> modelFiles gen)
      = [js "icon.png"; js "icon@2x.png"; js "icon@3x.png";
         js "strip.png"; js "strip@2x.png"; js "strip@3x.png"].
Proof.
  destruct (generated (generatePass sampleEnv imageRequest ∅)) as [gen |] eqn:Hgen;
    [| by vm_compute in Hgen].
  exists gen. split; [done |].
  destruct (bundle_assets sampleEnv imageRequest ∅ gen Hgen)
    as (icons & strips & _ & -> & Hs).
  rewrite fmap_app, Hs. reflexivity.
Defined.

Lemma serials_equal_iff_same_millisecond_witness :
  ∃ g1 g2,
    generated (generatePass sampleEnv requestA ∅) = Some g1
    ∧ generated (generatePass easternEnv requestB sampleDisk) = Some g2
    ∧ serialNumber (passJson g1) = serialNumber (passJson g2).
Proof.
  destruct (generated (generatePass sampleEnv requestA ∅)) as [g1 |] eqn:H1;
    [| by vm_compute in H1].
  destruct (generated (generatePass easternEnv requestB sampleDisk)) as [g2 |] eqn:H2;
    [| by vm_compute in H2].
  exists g1, g2. split; [done |]. split; [done |].
  by apply (serials_equal_iff_same_millisecond sampleEnv easternEnv _ _ _ _ _ _ H1 H2).
Defined.

Lemma serial_is_digits_witness :
  ∃ gen,
    generated (generatePass sampleEnv requestA ∅) = Some gen
    ∧ Forall (λ c, Regex.isDigit c = true) (serialNumber (passJson gen)).
Proof.
  destruct (generated (generatePass sampleEnv requestA ∅)) as [gen |] eqn:Hgen;
    [| by vm_compute in Hgen].
  exists gen. split; [done |].
  assert (Hnow : 0 ≤ now sampleEnv) by (by vm_compute).
  exact (proj1 (proj2 (serial_is_digits sampleEnv requestA ∅ gen Hnow Hgen))).
Defined.

Lemma archive_is_signer_output_witness :
  ∃ gen buffer,
    generated (generatePass sampleEnv imageRequest sampleDisk) = Some gen
    ∧ signPass sampleEnv (passJson gen) (modelFiles gen) = Ok buffer
    ∧ disk (generatePass sampleEnv imageRequest sampleDisk) !! passPath gen = Some buffer.
Proof.
  destruct (generated (generatePass sampleEnv imageRequest sampleDisk)) as [gen |] eqn:Hgen;
    [| by vm_compute in Hgen].
  destruct (archive_is_signer_output sampleEnv imageRequest sampleDisk gen Hgen)
    as (buffer & Hs & Hd & _).
  by exists gen, buffer.
Defined.


Lemma header_in_any_zone_witness :
  ∃ gen f rest,
    generated (generatePass easternEnv (requestWith (Some (js "2025-03-09")) None None) ∅)
    = Some gen
    ∧ headerFields (coupon (passJson gen)) = f :: rest
    ∧ value f = VDate (Some (1741478400000 + 23 * 3600000)).
Proof.
  destruct (generated (generatePass easternEnv
              (requestWith (Some (js "2025-03-09")) None None) ∅))
    as [gen |] eqn:Hgen; [| by vm_compute in Hgen].
  destruct (header_in_any_zone easternEnv _ ∅ gen (js "2025-03-09") 2025 3 9
              Hgen eq_refl eq_refl eq_refl) as (f & rest & Hh & Hv).
  exists gen, f, rest. split; [done |]. split; [done |].
  etrans; [exact Hv |]. by vm_compute.
Defined.

Lemma parseRGBColor_components_are_counts_witness :
  parseRGBColor 2 (js "rgb(999, 0, 0)") = Some (RGB (Finite 999) (Finite 0) (Finite 0))
  ∧ isCount (Finite 999).
Proof.
  assert (H : parseRGBColor 2 (js "rgb(999, 0, 0)")
              = Some (RGB (Finite 999) (Finite 0) (Finite 0))) by reflexivity.
  split; [exact H |].
  exact (proj1 (parseRGBColor_components_are_counts 2 _ _ H)).
Defined.

Lemma colour_without_rgb_text_is_default_witness :
  resolveColor (Some (js "#2980b9")) = Some (RGB (Finite 41) (Finite 128) (Finite 185)).
Proof.
  apply colour_without_rgb_text_is_default. intros pre post E.
  assert (H : 114%N ∈ js "#2980b9").
  { rewrite E. apply elem_of_app. right. apply elem_of_app. left. by left. }
  revert H. compute_done.
Defined.

End MoreInstances.
